(** * Key registry of the JWT token configuration (pkg/config/common.go)

    A shallow embedding of [CommonTokenConfig] and of its methods, followed
    by the properties of the key registry, of the origin tracker and of the
    key-presence predicates.

    Conventions of the embedding.
    - A Go [string] is a [string]; a Go [int] is a [Z].
    - A Go map is a [gmap]; a map-typed field is an [option (gmap _ _)],
      where [None] is the [nil] map and [Some ∅] an allocated, empty one.
    - A value of type [interface{}] is a [KeyMaterial]: one constructor per
      dynamic type the code switches on, one for [nil] and one for every
      other dynamic type.  A pointer to a key object is modelled by the
      object it points to.
    - A method with a pointer receiver takes the configuration and returns
      the configuration it leaves behind together with its results; the Go
      [error] result is an [option error], [None] being [nil].
    - [WithArgs] of pkg/errors attaches arguments to an error and returns
      no error at all when an argument is the nil interface value.
    - [range] over a map visits the entries in an order Go leaves open: the
      loop is a function of the order, and the method is the relation that
      accepts every order. *)

From stdpp Require Import gmap strings list fin_maps.
From Stdlib Require Import ZArith.

Local Open Scope string_scope.

(** ** Key objects of crypto/rsa and crypto/ecdsa *)

Module rsa.

Record PublicKey : Type := { N : Z; E : Z }.

(** The private key embeds its public key: Go's [privkey.PublicKey]. *)
Record PrivateKey : Type :=
  { Public : PublicKey; D : Z; Primes : list Z }.

End rsa.

Module ecdsa.

Record PublicKey : Type := { Curve : string; X : Z; Y : Z }.

Record PrivateKey : Type := { Public : PublicKey; D : Z }.

End ecdsa.

(** ** Values of type interface{} *)

Inductive KeyMaterial : Type :=
| VString (s : string)
| VRSAPrivate (k : rsa.PrivateKey)
| VRSAPublic (k : rsa.PublicKey)
| VECDSAPrivate (k : ecdsa.PrivateKey)
| VECDSAPublic (k : ecdsa.PublicKey)
| VNil
| VOther (dyntype : string).

(** ** Errors of pkg/errors, with the arguments [WithArgs] attaches *)

Inductive error : Type :=
| ErrKeyIDNotFound
| ErrUnsupportedKeyType (kt : KeyMaterial) (keyID : string)
| ErrUnsupportedConfigKeyType (k : KeyMaterial)
| ErrMixedConfigKeyType (have want : string)
| ErrRSAKeysNotFound
| ErrECDSAKeysNotFound
| ErrEmptyTokenConfigOrigin
| ErrUnsupportedTokenConfigOrigin (name : string).

Definition is_nil (v : KeyMaterial) : bool :=
  match v with
  | VNil => true
  | _ => false
  end.

(** [e.WithArgs(v...)].  The method belongs to pkg/errors, a package of the
    repository other than the one embedded here: [e] stands for the error
    with the arguments [v] attached, and the result is the [nil] error as
    soon as one of the arguments is the nil interface value.  A string
    argument is passed as a [VString]. *)
Definition WithArgs (e : error) (v : list KeyMaterial) : option error :=
  if existsb is_nil v then None else Some e.

(** ** The configuration structs *)

Record HMACSignMethodConfig : Type :=
  { TokenSecret : string }.

Record RSASignMethodConfig : Type :=
  { TokenRSADir : string;
    TokenRSAFiles : option (gmap string string);
    TokenRSAKeys : option (gmap string string);
    TokenRSAFile : string;
    TokenRSAKey : string }.

Record ECDSASignMethodConfig : Type :=
  { TokenECDSADir : string;
    TokenECDSAFiles : option (gmap string string);
    TokenECDSAKeys : option (gmap string string);
    TokenECDSAFile : string;
    TokenECDSAKey : string }.

Record CommonTokenConfig : Type :=
  { TokenSignMethod : string;
    TokenName : string;
    TokenOrigin : string;
    TokenLifetime : Z;
    EvalExpr : list string;
    HMAC : HMACSignMethodConfig;
    RSA : RSASignMethodConfig;
    ECDSA : ECDSASignMethodConfig;
    tokenOrigin : string;
    tokenType : string;
    tokenKeys : option (gmap string KeyMaterial) }.

(** Assignments to the three private fields. *)

Definition set_tokenOrigin (c : CommonTokenConfig) (name : string) : CommonTokenConfig :=
  {| TokenSignMethod := TokenSignMethod c; TokenName := TokenName c;
     TokenOrigin := TokenOrigin c; TokenLifetime := TokenLifetime c;
     EvalExpr := EvalExpr c; HMAC := HMAC c; RSA := RSA c; ECDSA := ECDSA c;
     tokenOrigin := name; tokenType := tokenType c; tokenKeys := tokenKeys c |}.

Definition set_tokenType (c : CommonTokenConfig) (kt : string) : CommonTokenConfig :=
  {| TokenSignMethod := TokenSignMethod c; TokenName := TokenName c;
     TokenOrigin := TokenOrigin c; TokenLifetime := TokenLifetime c;
     EvalExpr := EvalExpr c; HMAC := HMAC c; RSA := RSA c; ECDSA := ECDSA c;
     tokenOrigin := tokenOrigin c; tokenType := kt; tokenKeys := tokenKeys c |}.

Definition set_tokenKeys (c : CommonTokenConfig)
    (keys : option (gmap string KeyMaterial)) : CommonTokenConfig :=
  {| TokenSignMethod := TokenSignMethod c; TokenName := TokenName c;
     TokenOrigin := TokenOrigin c; TokenLifetime := TokenLifetime c;
     EvalExpr := EvalExpr c; HMAC := HMAC c; RSA := RSA c; ECDSA := ECDSA c;
     tokenOrigin := tokenOrigin c; tokenType := tokenType c; tokenKeys := keys |}.

(** The entries of the registry; a [nil] map reads as an empty one. *)
Definition entries (c : CommonTokenConfig) : gmap string KeyMaterial :=
  default ∅ (tokenKeys c).

(** [if c.tokenKeys == nil { c.tokenKeys = make(map[string]interface{}) }] *)
Definition make_tokenKeys (c : CommonTokenConfig) : CommonTokenConfig :=
  match tokenKeys c with
  | None => set_tokenKeys c (Some ∅)
  | Some _ => c
  end.

(** [c.tokenKeys[k] = v], on an allocated or a [nil] map alike (the callers
    allocate first). *)
Definition store (c : CommonTokenConfig) (k : string) (v : KeyMaterial) : CommonTokenConfig :=
  set_tokenKeys c (Some (<[k := v]> (entries c))).

Definition defaultKeyID : string := "0".

(** ** HasRSAKeys and HasECDSAKeys *)

Definition HasRSAKeys (c : CommonTokenConfig) : bool :=
  if negb (bool_decide (TokenRSADir (RSA c) = "")) then true
  else if negb (bool_decide (TokenRSAFile (RSA c) = "")) then true
  else if negb (bool_decide (TokenRSAKey (RSA c) = "")) then true
  else if negb (bool_decide (TokenRSAFiles (RSA c) = None)) then true
  else if negb (bool_decide (TokenRSAKeys (RSA c) = None)) then true
  else false.

Definition HasECDSAKeys (c : CommonTokenConfig) : bool :=
  if negb (bool_decide (TokenECDSADir (ECDSA c) = "")) then true
  else if negb (bool_decide (TokenECDSAFile (ECDSA c) = "")) then true
  else if negb (bool_decide (TokenECDSAKey (ECDSA c) = "")) then true
  else if negb (bool_decide (TokenECDSAFiles (ECDSA c) = None)) then true
  else if negb (bool_decide (TokenECDSAKeys (ECDSA c) = None)) then true
  else false.

(** ** NewCommonTokenConfig: every field at its zero value *)

Definition NewCommonTokenConfig : CommonTokenConfig :=
  {| TokenSignMethod := ""; TokenName := ""; TokenOrigin := "";
     TokenLifetime := 0; EvalExpr := [];
     HMAC := {| TokenSecret := "" |};
     RSA := {| TokenRSADir := ""; TokenRSAFiles := None; TokenRSAKeys := None;
               TokenRSAFile := ""; TokenRSAKey := "" |};
     ECDSA := {| TokenECDSADir := ""; TokenECDSAFiles := None;
                 TokenECDSAKeys := None; TokenECDSAFile := "";
                 TokenECDSAKey := "" |};
     tokenOrigin := ""; tokenType := ""; tokenKeys := None |}.

(** ** GetOrigin and SetOrigin *)

Definition GetOrigin (c : CommonTokenConfig) : string :=
  if decide (tokenOrigin c = "") then "unknown" else tokenOrigin c.

Definition SetOrigin (c : CommonTokenConfig) (name : string)
    : CommonTokenConfig * option error :=
  if decide (name = "config" ∨ name = "env") then (set_tokenOrigin c name, None)
  else if decide (name = "empty") then (c, Some ErrEmptyTokenConfigOrigin)
  else (c, WithArgs (ErrUnsupportedTokenConfigOrigin name) [VString name]).

(** ** GetKeys *)

Definition GetKeys (c : CommonTokenConfig) : string * option (gmap string KeyMaterial) :=
  (tokenType c, tokenKeys c).

(** ** AddPublicKey *)

(** [if _, exists := c.tokenKeys[defaultKeyID]; !exists { c.tokenKeys[defaultKeyID] = v }] *)
Definition store_default_if_absent (c : CommonTokenConfig) (v : KeyMaterial) : CommonTokenConfig :=
  match entries c !! defaultKeyID with
  | Some _ => c
  | None => store c defaultKeyID v
  end.

Definition AddPublicKey (c : CommonTokenConfig) (keyID : string)
    (keyMaterial : KeyMaterial) : CommonTokenConfig * option error :=
  if decide (keyID = "") then (c, Some ErrKeyIDNotFound)
  else
    let c := make_tokenKeys c in
    match keyMaterial with
    | VRSAPrivate privkey =>
        let c := store c keyID (VRSAPublic (rsa.Public privkey)) in
        (store_default_if_absent c (VRSAPublic (rsa.Public privkey)), None)
    | VECDSAPrivate privkey =>
        let c := store c keyID (VECDSAPublic (ecdsa.Public privkey)) in
        (store_default_if_absent c (VECDSAPublic (ecdsa.Public privkey)), None)
    | VRSAPublic _ | VECDSAPublic _ =>
        (store c keyID keyMaterial, None)
    | _ => (c, WithArgs (ErrUnsupportedKeyType keyMaterial keyID)
                 [keyMaterial; VString keyID])
    end.

(** ** GetPrivateKey *)

(** The [for keyID, k := range c.tokenKeys] loop, on the order in which the
    entries are visited: the first private key at a kid other than the
    default one, if the loop returns from inside. *)
Fixpoint range_private (order : list (string * KeyMaterial))
    : option (KeyMaterial * string) :=
  match order with
  | [] => None
  | (keyID, k) :: rest =>
      if decide (keyID = defaultKeyID) then range_private rest
      else match k with
           | VRSAPrivate _ => Some (k, keyID)
           | VECDSAPrivate _ => Some (k, keyID)
           | _ => range_private rest
           end
  end.

Definition GetPrivateKey_in (order : list (string * KeyMaterial))
    (c : CommonTokenConfig) : KeyMaterial * string * option error :=
  match tokenKeys c with
  | None => (VNil, "", Some ErrRSAKeysNotFound)
  | Some _ =>
      match range_private order with
      | Some (k, keyID) => (k, keyID, None)
      | None =>
          if decide (tokenType c = "ecdsa")
          then (VNil, "", Some ErrECDSAKeysNotFound)
          else (VNil, "", Some ErrRSAKeysNotFound)
      end
  end.

(** The orders [range] may take: the entries of the map, each once. *)
Definition iteration_order (c : CommonTokenConfig)
    (order : list (string * KeyMaterial)) : Prop :=
  order ≡ₚ map_to_list (entries c).

(** [GetPrivateKey c r]: [r] is a result the method can return on [c]. *)
Definition GetPrivateKey (c : CommonTokenConfig)
    (r : KeyMaterial * string * option error) : Prop :=
  ∃ order, iteration_order c order ∧ r = GetPrivateKey_in order c.

(** ** getKeyType and AddKey *)

Definition getKeyType (c : CommonTokenConfig) (k : KeyMaterial) : string * option error :=
  match k with
  | VString _ => ("secret", None)
  | VRSAPrivate _ => ("rsa", None)
  | VRSAPublic _ => ("rsa", None)
  | VECDSAPrivate _ => ("ecdsa", None)
  | VECDSAPublic _ => ("ecdsa", None)
  | _ => ("", WithArgs (ErrUnsupportedConfigKeyType k) [k])
  end.

Definition AddKey (c : CommonTokenConfig) (k : string) (pk : KeyMaterial)
    : CommonTokenConfig * option error :=
  let c := make_tokenKeys c in
  match getKeyType c pk with
  | (_, Some err) => (c, Some err)
  | (keyType, None) =>
      let c := if decide (tokenType c = "") then set_tokenType c keyType else c in
      if decide (tokenType c ≠ keyType)
      then (c, WithArgs (ErrMixedConfigKeyType (tokenType c) keyType)
                 [VString (tokenType c); VString keyType])
      else (store c k pk, None)
  end.

(** ** LoadKeys *)

Section LoadKeys.

(** The private method [load] lives in another file of the package: it is
    a parameter here. *)
Variable load : CommonTokenConfig → CommonTokenConfig * option error.

Definition LoadKeys (c : CommonTokenConfig) : CommonTokenConfig * option error :=
  if decide (0 < size (entries c)) then (c, None) else load c.

End LoadKeys.

(** ** Sample key objects *)

Definition rsa_pub1 : rsa.PublicKey := {| rsa.N := 3233; rsa.E := 17 |}.
Definition rsa_priv1 : rsa.PrivateKey :=
  {| rsa.Public := rsa_pub1; rsa.D := 2753; rsa.Primes := [61; 53]%Z |}.
Definition rsa_pub2 : rsa.PublicKey := {| rsa.N := 3127; rsa.E := 3 |}.
Definition rsa_priv2 : rsa.PrivateKey :=
  {| rsa.Public := rsa_pub2; rsa.D := 2011; rsa.Primes := [53; 59]%Z |}.
Definition ecdsa_pub1 : ecdsa.PublicKey :=
  {| ecdsa.Curve := "P-256"; ecdsa.X := 5; ecdsa.Y := 1 |}.
Definition ecdsa_priv1 : ecdsa.PrivateKey :=
  {| ecdsa.Public := ecdsa_pub1; ecdsa.D := 7 |}.

(** A [load] for the examples: it registers a shared secret at the default
    kid. *)
Definition load_secret (c : CommonTokenConfig) : CommonTokenConfig * option error :=
  AddKey c defaultKeyID (VString "s3cret").

(** ** Sequences of calls *)

Inductive call : Type :=
| CallSetOrigin (name : string)
| CallAddPublicKey (keyID : string) (keyMaterial : KeyMaterial)
| CallAddKey (k : string) (pk : KeyMaterial).

Definition exec (c : CommonTokenConfig) (op : call) : CommonTokenConfig * option error :=
  match op with
  | CallSetOrigin name => SetOrigin c name
  | CallAddPublicKey keyID keyMaterial => AddPublicKey c keyID keyMaterial
  | CallAddKey k pk => AddKey c k pk
  end.

(** The configuration left by a sequence of calls, failed ones included. *)
Definition run (c : CommonTokenConfig) (ops : list call) : CommonTokenConfig :=
  foldl (λ c op, (exec c op).1) c ops.

(** [AddPublicKey] over a list of [(kid, key)] pairs, in order. *)
Definition AddPublicKeys (c : CommonTokenConfig)
    (ins : list (string * KeyMaterial)) : CommonTokenConfig :=
  foldl (λ c i, (AddPublicKey c i.1 i.2).1) c ins.

(** ** Vocabulary of the specification *)

Definition is_private_key (k : KeyMaterial) : Prop :=
  match k with
  | VRSAPrivate _ | VECDSAPrivate _ => True
  | _ => False
  end.

Definition is_public_key (k : KeyMaterial) : Prop :=
  match k with
  | VRSAPublic _ | VECDSAPublic _ => True
  | _ => False
  end.

(** The public key a private key yields. *)
Definition derived_public (k : KeyMaterial) : option KeyMaterial :=
  match k with
  | VRSAPrivate p => Some (VRSAPublic (rsa.Public p))
  | VECDSAPrivate p => Some (VECDSAPublic (ecdsa.Public p))
  | _ => None
  end.

(** The classification as the specification words it: a string is a
    secret, an RSA key object is rsa, an ECDSA key object is ecdsa. *)
Inductive family_of : KeyMaterial → string → Prop :=
| family_secret s : family_of (VString s) "secret"
| family_rsa_private p : family_of (VRSAPrivate p) "rsa"
| family_rsa_public p : family_of (VRSAPublic p) "rsa"
| family_ecdsa_private p : family_of (VECDSAPrivate p) "ecdsa"
| family_ecdsa_public p : family_of (VECDSAPublic p) "ecdsa".

(** An insert operation of the registry: [AddKey] or [AddPublicKey]. *)
Definition insert_op : Type :=
  CommonTokenConfig → string → KeyMaterial → CommonTokenConfig * option error.

(** "Inserting an RSA private key at a kid into an empty registry produces
    two entries: the private key at the kid, its public key at the default
    kid." *)
Definition private_then_default (insert : insert_op) (kid : string)
    (priv : rsa.PrivateKey) : Prop :=
  let c := (insert NewCommonTokenConfig kid (VRSAPrivate priv)).1 in
  size (entries c) = 2
  ∧ entries c !! kid = Some (VRSAPrivate priv)
  ∧ entries c !! defaultKeyID = Some (VRSAPublic (rsa.Public priv)).

(** "After a first successful insert, an insert of a key of another family
    fails with MixedConfigKeyType." *)
Definition rejects_other_family (first second : insert_op)
    (k1 : string) (pk1 : KeyMaterial) (k2 : string) (pk2 : KeyMaterial) : Prop :=
  ∀ c1 kt1 kt2,
    first NewCommonTokenConfig k1 pk1 = (c1, None) →
    family_of pk1 kt1 → family_of pk2 kt2 → kt1 ≠ kt2 →
    (second c1 k2 pk2).2 = Some (ErrMixedConfigKeyType kt1 kt2).

(** "An insertion with an empty kid fails with ErrKeyIDNotFound and stores
    nothing." *)
Definition rejects_empty_kid (insert : insert_op) (c : CommonTokenConfig)
    (key : KeyMaterial) : Prop :=
  (insert c "" key).2 = Some ErrKeyIDNotFound
  ∧ entries (insert c "" key).1 = entries c.

(** "An input that is no key object is rejected by AddPublicKey with
    ErrUnsupportedKeyType without modifying any existing entry." *)
Definition refused_as_unsupported (c : CommonTokenConfig) (keyID : string)
    (km : KeyMaterial) : Prop :=
  (AddPublicKey c keyID km).2 = Some (ErrUnsupportedKeyType km keyID)
  ∧ entries (AddPublicKey c keyID km).1 = entries c.

(** "Without a private key at a non-default kid, GetPrivateKey fails with
    ErrECDSAKeysNotFound when the family is ecdsa and with
    ErrRSAKeysNotFound otherwise." *)
Definition family_not_found (c : CommonTokenConfig) : option error :=
  if decide (tokenType c = "ecdsa") then Some ErrECDSAKeysNotFound
  else Some ErrRSAKeysNotFound.

Definition no_private_key (c : CommonTokenConfig) : Prop :=
  ∀ kid k, entries c !! kid = Some k → kid ≠ defaultKeyID → ¬ is_private_key k.

Definition not_found_by_family (c : CommonTokenConfig) : Prop :=
  no_private_key c →
  ∀ r, GetPrivateKey c r → r = (VNil, "", family_not_found c).

(** A committed family comes with an allocated registry. *)
Definition committed (c : CommonTokenConfig) (kt : string) : Prop :=
  kt ≠ "" ∧ tokenType c = kt ∧ is_Some (tokenKeys c).

(** [AddKey] over a list of [(kid, key)] pairs, in order, failed calls
    included. *)
Definition AddKeys (c : CommonTokenConfig)
    (ins : list (string * KeyMaterial)) : CommonTokenConfig :=
  foldl (λ c i, (AddKey c i.1 i.2).1) c ins.

(** [SetOrigin] over a list of names, in order, failed calls included. *)
Definition SetOrigins (c : CommonTokenConfig) (names : list string) : CommonTokenConfig :=
  foldl (λ c name, (SetOrigin c name).1) c names.

(** The names [SetOrigin] accepts. *)
Definition accepted_origin (name : string) : Prop :=
  name = "config" ∨ name = "env".

#[local] Instance accepted_origin_dec (name : string) : Decision (accepted_origin name) :=
  or_dec _ _.

(** The two inserts among the calls. *)
Definition is_insert (op : call) : Prop :=
  match op with
  | CallSetOrigin _ => False
  | _ => True
  end.

(** No entry at a kid other than the default one holds a private key that
    differs from the entry [(kid, k)]. *)
Definition only_private_key (c : CommonTokenConfig) (kid : string) (k : KeyMaterial) : Prop :=
  ∀ kid' k', entries c !! kid' = Some k' → kid' ≠ defaultKeyID →
             is_private_key k' → kid' = kid ∧ k' = k.

(** Every entry of the registry is of the committed family, or is the nil
    interface value. *)
Definition same_family (c : CommonTokenConfig) : Prop :=
  ∀ kid k, entries c !! kid = Some k → k = VNil ∨ family_of k (tokenType c).

(** Every entry of the registry is a public key. *)
Definition all_public (c : CommonTokenConfig) : Prop :=
  ∀ kid k, entries c !! kid = Some k → is_public_key k.

(** * Properties *)

Example AddPublicKey_sample :
  tokenKeys (AddPublicKey NewCommonTokenConfig "k1" (VRSAPrivate rsa_priv1)).1
  = Some (<["0" := VRSAPublic rsa_pub1]> (<["k1" := VRSAPublic rsa_pub1]> ∅)).
Proof. reflexivity. Qed.

Example AddKey_sample :
  AddKey NewCommonTokenConfig "k1" (VRSAPrivate rsa_priv1)
  = (set_tokenKeys (set_tokenType NewCommonTokenConfig "rsa")
       (Some {["k1" := VRSAPrivate rsa_priv1]}), None).
Proof. reflexivity. Qed.

(** ** Shape of the registry after the private-field assignments *)

Lemma entries_store c k v : entries (store c k v) = <[k := v]> (entries c).
Proof. reflexivity. Qed.

Lemma entries_set_tokenType c kt : entries (set_tokenType c kt) = entries c.
Proof. reflexivity. Qed.

Lemma entries_make_tokenKeys c : entries (make_tokenKeys c) = entries c.
Proof. unfold make_tokenKeys, entries. destruct (tokenKeys c) eqn:E; [by rewrite E | done]. Qed.

Lemma tokenKeys_make_tokenKeys c : is_Some (tokenKeys (make_tokenKeys c)).
Proof. unfold make_tokenKeys. destruct (tokenKeys c) eqn:E; [rewrite E | simpl]; eauto. Qed.

Lemma make_tokenKeys_allocated c : is_Some (tokenKeys c) → make_tokenKeys c = c.
Proof. intros [m Hm]. unfold make_tokenKeys. by rewrite Hm. Qed.

Lemma tokenType_make_tokenKeys c : tokenType (make_tokenKeys c) = tokenType c.
Proof. unfold make_tokenKeys. destruct (tokenKeys c); done. Qed.

Lemma tokenOrigin_make_tokenKeys c : tokenOrigin (make_tokenKeys c) = tokenOrigin c.
Proof. unfold make_tokenKeys. by destruct (tokenKeys c). Qed.

Lemma entries_store_default_if_absent c v :
  entries (store_default_if_absent c v)
  = match entries c !! defaultKeyID with
    | Some _ => entries c
    | None => <[defaultKeyID := v]> (entries c)
    end.
Proof. unfold store_default_if_absent. by destruct (entries c !! defaultKeyID). Qed.

Lemma tokenOrigin_store c k v : tokenOrigin (store c k v) = tokenOrigin c.
Proof. reflexivity. Qed.

Lemma tokenType_store c k v : tokenType (store c k v) = tokenType c.
Proof. reflexivity. Qed.

Lemma tokenOrigin_store_default_if_absent c v :
  tokenOrigin (store_default_if_absent c v) = tokenOrigin c.
Proof. unfold store_default_if_absent. by destruct (entries c !! defaultKeyID). Qed.

Lemma tokenType_store_default_if_absent c v :
  tokenType (store_default_if_absent c v) = tokenType c.
Proof. unfold store_default_if_absent. by destruct (entries c !! defaultKeyID). Qed.

Lemma tokenKeys_store_default_if_absent c v :
  is_Some (tokenKeys c) → is_Some (tokenKeys (store_default_if_absent c v)).
Proof.
  unfold store_default_if_absent. destruct (entries c !! defaultKeyID); [done |].
  intros _. simpl. eauto.
Qed.

(** ** The key-presence predicates *)

(** C10: HasRSAKeys, and in the same way HasECDSAKeys, is true exactly when
    one of the five fields of its family is set: a string field (dir,
    single file, single key) is set when it is not empty, a map field
    (files, keys) when it is not nil.  An allocated map with no entry
    therefore makes the predicate true. *)
Theorem HasKeys_iff_some_field_set (c : CommonTokenConfig) :
  (HasRSAKeys c = true ↔
     TokenRSADir (RSA c) ≠ "" ∨ TokenRSAFile (RSA c) ≠ ""
     ∨ TokenRSAKey (RSA c) ≠ "" ∨ TokenRSAFiles (RSA c) ≠ None
     ∨ TokenRSAKeys (RSA c) ≠ None)
  ∧ (HasECDSAKeys c = true ↔
     TokenECDSADir (ECDSA c) ≠ "" ∨ TokenECDSAFile (ECDSA c) ≠ ""
     ∨ TokenECDSAKey (ECDSA c) ≠ "" ∨ TokenECDSAFiles (ECDSA c) ≠ None
     ∨ TokenECDSAKeys (ECDSA c) ≠ None)
  ∧ (TokenRSAFiles (RSA c) = Some ∅ ∨ TokenRSAKeys (RSA c) = Some ∅ →
     HasRSAKeys c = true)
  ∧ (TokenECDSAFiles (ECDSA c) = Some ∅ ∨ TokenECDSAKeys (ECDSA c) = Some ∅ →
     HasECDSAKeys c = true).
Proof.
  unfold HasRSAKeys, HasECDSAKeys.
  split_and!; repeat case_bool_decide; simpl; intuition congruence.
Qed.

(** An empty, allocated files map is enough for [HasRSAKeys]. *)
Lemma HasKeys_iff_some_field_set_witness :
  HasRSAKeys
    {| TokenSignMethod := ""; TokenName := ""; TokenOrigin := "";
       TokenLifetime := 0; EvalExpr := [];
       HMAC := HMAC NewCommonTokenConfig;
       RSA := {| TokenRSADir := ""; TokenRSAFiles := Some ∅;
                 TokenRSAKeys := None; TokenRSAFile := ""; TokenRSAKey := "" |};
       ECDSA := ECDSA NewCommonTokenConfig;
       tokenOrigin := ""; tokenType := ""; tokenKeys := None |} = true
  ∧ HasRSAKeys NewCommonTokenConfig = false.
Proof.
  split; [| reflexivity].
  match goal with |- HasRSAKeys ?c = true =>
    apply (proj1 (proj2 (proj2 (HasKeys_iff_some_field_set c)))) end.
  left. reflexivity.
Defined.

(** ** The origin tracker *)

Lemma exec_tokenOrigin c op :
  (∀ name, op = CallSetOrigin name → name ≠ "config" ∧ name ≠ "env") →
  tokenOrigin (exec c op).1 = tokenOrigin c.
Proof.
  intros Hop. destruct op as [name | keyID km | k pk]; simpl.
  - destruct (Hop name eq_refl) as [H1 H2]. unfold SetOrigin.
    repeat case_decide; simpl; intuition congruence.
  - unfold AddPublicKey. case_decide; [done |].
    destruct km; simpl;
      rewrite ?tokenOrigin_store_default_if_absent, ?tokenOrigin_store;
      apply tokenOrigin_make_tokenKeys.
  - unfold AddKey. destruct pk; simpl; rewrite ?tokenOrigin_make_tokenKeys;
      repeat case_decide; simpl; rewrite ?tokenOrigin_make_tokenKeys; done.
Qed.

Lemma run_tokenOrigin ops : ∀ c,
  Forall (λ op, ∀ name, op = CallSetOrigin name → name ≠ "config" ∧ name ≠ "env") ops →
  tokenOrigin (run c ops) = tokenOrigin c.
Proof.
  induction ops as [| op ops IH]; intros c Hops; [done |].
  apply Forall_cons in Hops as [Hop Hops].
  unfold run in *. simpl. rewrite (IH _ Hops). by apply exec_tokenOrigin.
Qed.

(** C6: SetOrigin succeeds exactly for the names "config" and "env" and
    then records the name; it fails with ErrEmptyTokenConfigOrigin for the
    name "empty" and with ErrUnsupportedTokenConfigOrigin for every other
    name; a failed call leaves the configuration as it was, so that
    GetOrigin answers "unknown" as long as no call of SetOrigin has
    succeeded. *)
Theorem SetOrigin_config_env_only (c : CommonTokenConfig) (name : string) :
  ((SetOrigin c name).2 = None ↔ name = "config" ∨ name = "env")
  ∧ ((SetOrigin c name).2 = None →
     tokenOrigin (SetOrigin c name).1 = name ∧ GetOrigin (SetOrigin c name).1 = name)
  ∧ (name = "empty" → (SetOrigin c name).2 = Some ErrEmptyTokenConfigOrigin)
  ∧ (name ≠ "config" → name ≠ "env" → name ≠ "empty" →
     (SetOrigin c name).2 = Some (ErrUnsupportedTokenConfigOrigin name))
  ∧ ((SetOrigin c name).2 ≠ None → (SetOrigin c name).1 = c)
  ∧ (∀ ops,
       Forall (λ op, ∀ n, op = CallSetOrigin n → n ≠ "config" ∧ n ≠ "env") ops →
       GetOrigin (run NewCommonTokenConfig ops) = "unknown").
Proof.
  split_and!.
  - unfold SetOrigin, WithArgs. repeat case_decide; simpl; intuition congruence.
  - unfold SetOrigin, GetOrigin, WithArgs.
    case_decide as Hname; simpl; [| repeat case_decide; done].
    intros _. split; [done |]. case_decide as Hempty; [| done].
    destruct Hname; congruence.
  - intros ->. reflexivity.
  - intros. unfold SetOrigin, WithArgs. repeat case_decide; simpl; intuition congruence.
  - unfold SetOrigin, WithArgs. repeat case_decide; simpl; intuition congruence.
  - intros ops Hops. unfold GetOrigin. by rewrite run_tokenOrigin.
Qed.

(** "bogus" is refused and the origin stays unknown; "env" is recorded. *)
Lemma SetOrigin_config_env_only_witness :
  SetOrigin NewCommonTokenConfig "bogus"
    = (NewCommonTokenConfig, Some (ErrUnsupportedTokenConfigOrigin "bogus"))
  ∧ GetOrigin (SetOrigin NewCommonTokenConfig "bogus").1 = "unknown"
  ∧ GetOrigin (SetOrigin NewCommonTokenConfig "env").1 = "env"
  ∧ GetOrigin (run NewCommonTokenConfig
                 [CallSetOrigin "bogus"; CallAddKey "a" (VString "s");
                  CallSetOrigin "empty"]) = "unknown".
Proof.
  pose proof (SetOrigin_config_env_only NewCommonTokenConfig "bogus")
    as (_ & _ & _ & Hbogus & Hsame & Hrun).
  pose proof (SetOrigin_config_env_only NewCommonTokenConfig "env")
    as (_ & Henv & _).
  split; [| split; [| split]].
  - apply injective_projections.
    + apply Hsame. by rewrite Hbogus.
    + by apply Hbogus.
  - reflexivity.
  - by apply Henv.
  - apply Hrun.
    repeat (apply Forall_cons; split; [intros n Heq; by simplify_eq |]).
    apply Forall_nil_2.
Defined.

(** ** Key classification *)

Lemma getKeyType_family c k kt : family_of k kt → getKeyType c k = (kt, None).
Proof. destruct 1; reflexivity. Qed.

(** The classification returns without error on the keys that have a
    family and on the nil interface value, for which the family is the
    empty string. *)
Lemma getKeyType_ok c k kt :
  getKeyType c k = (kt, None) ↔ family_of k kt ∨ (k = VNil ∧ kt = "").
Proof.
  split.
  - destruct k; simpl; intros [= <-]; eauto using family_of.
  - intros [Hfam | [-> ->]]; [by apply getKeyType_family | reflexivity].
Qed.

Lemma family_of_nonempty k kt : family_of k kt → kt ≠ "".
Proof. destruct 1; done. Qed.

Lemma family_of_functional k kt1 kt2 : family_of k kt1 → family_of k kt2 → kt1 = kt2.
Proof. destruct 1; inversion 1; reflexivity. Qed.

Lemma family_of_not_nil k kt : family_of k kt → k ≠ VNil.
Proof. destruct 1; done. Qed.

(** C8: the classification is a function of the value alone: a string is
    "secret", an RSA private or public key is "rsa", an ECDSA private or
    public key is "ecdsa", and any other value except the nil interface
    value fails with ErrUnsupportedConfigKeyType, which carries the value.
    An RSA private key and the public key derived from it are both "rsa".
    On the nil interface value the classification returns the empty
    family and no error: the error of the default branch is lost in
    WithArgs. *)
Theorem getKeyType_classifies (c : CommonTokenConfig) (k : KeyMaterial) :
  (∀ kt, family_of k kt → getKeyType c k = (kt, None))
  ∧ (k ≠ VNil → ∀ kt, getKeyType c k = (kt, None) ↔ family_of k kt)
  ∧ (k ≠ VNil →
     (getKeyType c k = ("", Some (ErrUnsupportedConfigKeyType k)) ↔
      ∀ kt, ¬ family_of k kt))
  ∧ getKeyType c VNil = ("", None)
  ∧ (∀ c', getKeyType c' k = getKeyType c k)
  ∧ (∀ s, getKeyType c (VString s) = ("secret", None))
  ∧ (∀ p, getKeyType c (VRSAPrivate p) = ("rsa", None)
          ∧ getKeyType c (VRSAPublic (rsa.Public p)) = ("rsa", None))
  ∧ (∀ p, getKeyType c (VRSAPublic p) = ("rsa", None))
  ∧ (∀ p, getKeyType c (VECDSAPrivate p) = ("ecdsa", None)
          ∧ getKeyType c (VECDSAPublic (ecdsa.Public p)) = ("ecdsa", None))
  ∧ (∀ p, getKeyType c (VECDSAPublic p) = ("ecdsa", None)).
Proof.
  split_and!; try done.
  - intros kt. apply getKeyType_family.
  - intros Hnil kt. rewrite getKeyType_ok. intuition congruence.
  - intros Hnil. split.
    + intros Hk kt Hfam. apply (getKeyType_family c) in Hfam. congruence.
    + intros Hnone. destruct k; try reflexivity; try done;
        exfalso; eapply Hnone; constructor.
Qed.

(** An integer is refused with the error that carries it; nil is not
    refused. *)
Lemma getKeyType_classifies_witness :
  getKeyType NewCommonTokenConfig (VOther "int")
    = ("", Some (ErrUnsupportedConfigKeyType (VOther "int")))
  ∧ getKeyType NewCommonTokenConfig VNil = ("", None).
Proof.
  pose proof (getKeyType_classifies NewCommonTokenConfig (VOther "int"))
    as (_ & _ & Hint & Hnil & _).
  split; [| exact Hnil].
  apply Hint; [done |]. intros kt Hfam. inversion Hfam.
Defined.

(** ** LoadKeys *)

Lemma entries_size_pos (c : CommonTokenConfig) :
  (∃ kid k, entries c !! kid = Some k) ↔ 0 < size (entries c).
Proof.
  split.
  - intros (kid & k & Hk).
    destruct (decide (size (entries c) = 0)) as [Hz |]; [| lia].
    apply map_size_empty_iff in Hz. rewrite Hz in Hk. by rewrite lookup_empty in Hk.
  - intros Hsz. destruct (map_choose (entries c)) as (kid & k & Hk); [| eauto].
    intros Hempty. rewrite Hempty, map_size_empty in Hsz. lia.
Qed.

(** C5: on a configuration whose registry holds at least one entry,
    LoadKeys returns success at once and leaves the configuration as it
    is, whatever [load] would do; so a second call, after a first one that
    populated the registry, changes nothing. *)
Theorem LoadKeys_populated_noop
    (load : CommonTokenConfig → CommonTokenConfig * option error)
    (c : CommonTokenConfig) :
  ((∃ kid k, entries c !! kid = Some k) → LoadKeys load c = (c, None))
  ∧ ((∃ kid k, entries (LoadKeys load c).1 !! kid = Some k) →
     LoadKeys load (LoadKeys load c).1 = ((LoadKeys load c).1, None)).
Proof.
  assert (Hnoop : ∀ c0, (∃ kid k, entries c0 !! kid = Some k) →
                        LoadKeys load c0 = (c0, None)).
  { intros c0 Hc0. apply entries_size_pos in Hc0.
    unfold LoadKeys. by case_decide. }
  split; apply Hnoop.
Qed.

(** The first call loads the secret at the default kid; the second call
    returns the same configuration. *)
Lemma LoadKeys_populated_noop_witness :
  entries (LoadKeys load_secret NewCommonTokenConfig).1 !! "0" = Some (VString "s3cret")
  ∧ LoadKeys load_secret (LoadKeys load_secret NewCommonTokenConfig).1
    = ((LoadKeys load_secret NewCommonTokenConfig).1, None).
Proof.
  split; [reflexivity |].
  apply (LoadKeys_populated_noop load_secret NewCommonTokenConfig).
  exists "0", (VString "s3cret"). reflexivity.
Defined.

(** ** AddPublicKey *)

(** The registry [AddPublicKey] leaves behind. *)
Lemma AddPublicKey_entries c keyID km :
  keyID ≠ "" →
  entries (AddPublicKey c keyID km).1
  = match derived_public km with
    | Some pub =>
        let m := <[keyID := pub]> (entries c) in
        match m !! defaultKeyID with
        | Some _ => m
        | None => <[defaultKeyID := pub]> m
        end
    | None =>
        match km with
        | VRSAPublic _ | VECDSAPublic _ => <[keyID := km]> (entries c)
        | _ => entries c
        end
    end.
Proof.
  intros HkeyID. unfold AddPublicKey. case_decide; [done |].
  destruct km; simpl;
    rewrite ?entries_store_default_if_absent, ?entries_store,
      ?entries_make_tokenKeys; done.
Qed.

Lemma AddPublicKey_result c keyID km :
  keyID ≠ "" →
  (AddPublicKey c keyID km).2
  = match km with
    | VRSAPrivate _ | VECDSAPrivate _ | VRSAPublic _ | VECDSAPublic _ => None
    | VNil => None
    | _ => Some (ErrUnsupportedKeyType km keyID)
    end.
Proof.
  intros HkeyID. unfold AddPublicKey. case_decide; [done |]. by destruct km.
Qed.

Lemma AddPublicKey_empty_kid c km :
  AddPublicKey c "" km = (c, Some ErrKeyIDNotFound).
Proof. reflexivity. Qed.

Lemma derived_public_is_public km pub : derived_public km = Some pub → is_public_key pub.
Proof. destruct km; simpl; intros [= <-]; exact I. Qed.

Lemma derived_public_private km : is_Some (derived_public km) ↔ is_private_key km.
Proof.
  destruct km; simpl; split; intros H; try done; eauto; by destruct H.
Qed.

(** Every entry after the call is an entry from before or a public key. *)
Lemma AddPublicKey_old_or_public c keyID km k v :
  entries (AddPublicKey c keyID km).1 !! k = Some v →
  entries c !! k = Some v ∨ is_public_key v.
Proof.
  destruct (decide (keyID = "")) as [-> | HkeyID]; [by left |].
  rewrite AddPublicKey_entries by done.
  destruct (derived_public km) as [pub |] eqn:Hpub.
  - apply derived_public_is_public in Hpub. simpl.
    destruct (<[keyID:=pub]> (entries c) !! defaultKeyID);
      rewrite ?lookup_insert; repeat case_decide; intros; simplify_eq; eauto.
  - destruct km; try discriminate; eauto;
      rewrite lookup_insert; case_decide; intros; simplify_eq; simpl; eauto.
Qed.

(** An insertion at another kid leaves an existing default entry alone. *)
Lemma AddPublicKey_keeps_default c keyID km d :
  entries c !! defaultKeyID = Some d →
  keyID ≠ defaultKeyID →
  entries (AddPublicKey c keyID km).1 !! defaultKeyID = Some d.
Proof.
  intros Hd Hne.
  destruct (decide (keyID = "")) as [-> | HkeyID]; [done |].
  rewrite AddPublicKey_entries by done.
  destruct (derived_public km) as [pub |]; simpl.
  - rewrite lookup_insert_ne, Hd by done. by rewrite lookup_insert_ne.
  - destruct km; try done; by rewrite lookup_insert_ne.
Qed.

(** The first private key inserted into a registry without default entry
    gives the default entry. *)
Lemma AddPublicKey_sets_default c keyID km pub :
  entries c !! defaultKeyID = None →
  keyID ≠ "" →
  derived_public km = Some pub →
  entries (AddPublicKey c keyID km).1 !! defaultKeyID = Some pub.
Proof.
  intros Hd HkeyID Hpub. rewrite AddPublicKey_entries, Hpub by done. simpl.
  destruct (decide (keyID = defaultKeyID)) as [-> | Hne].
  - by rewrite !lookup_insert_eq.
  - rewrite lookup_insert_ne, Hd by done. by rewrite lookup_insert_eq.
Qed.

Lemma AddPublicKeys_keeps_default ins : ∀ c d,
  entries c !! defaultKeyID = Some d →
  Forall (λ i, i.1 ≠ defaultKeyID) ins →
  entries (AddPublicKeys c ins) !! defaultKeyID = Some d.
Proof.
  induction ins as [| [keyID km] ins IH]; intros c d Hd Hins; [done |].
  apply Forall_cons in Hins as [Hne Hins]. unfold AddPublicKeys in *. simpl.
  apply IH; [| done]. by apply AddPublicKey_keeps_default.
Qed.

(** C9, as the code has it: what AddPublicKey stores is a public key, so
    that every entry after a call is an entry from before the call or a
    public key.  With a kid that is not empty, a private key is replaced
    by the public key derived from it, a public key is stored as it is,
    and any other value that is not the nil interface value, a
    shared-secret string included, is refused with ErrUnsupportedKeyType
    and no entry is modified.  With an empty kid every input is refused
    with ErrKeyIDNotFound and the configuration stays as it was. *)
Theorem AddPublicKey_stores_public_keys
    (c : CommonTokenConfig) (keyID : string) (km : KeyMaterial) :
  let c' := (AddPublicKey c keyID km).1 in
  let r := (AddPublicKey c keyID km).2 in
  (∀ k v, entries c' !! k = Some v → entries c !! k = Some v ∨ is_public_key v)
  ∧ ((∀ k v, entries c !! k = Some v → is_public_key v) →
     ∀ k v, entries c' !! k = Some v → is_public_key v)
  ∧ (keyID ≠ "" → ∀ pub, derived_public km = Some pub →
     r = None ∧ entries c' !! keyID = Some pub)
  ∧ (keyID ≠ "" → is_public_key km →
     r = None ∧ entries c' !! keyID = Some km)
  ∧ (keyID ≠ "" → ¬ is_private_key km → ¬ is_public_key km → km ≠ VNil →
     refused_as_unsupported c keyID km)
  ∧ (∀ s, km = VString s → keyID ≠ "" →
     getKeyType c km = ("secret", None)
     ∧ r = Some (ErrUnsupportedKeyType (VString s) keyID)
     ∧ entries c' = entries c)
  ∧ (keyID = "" → r = Some ErrKeyIDNotFound ∧ c' = c).
Proof.
  intros c' r. subst c' r. split_and!.
  - intros k v. apply AddPublicKey_old_or_public.
  - intros Hall k v Hv.
    destruct (AddPublicKey_old_or_public _ _ _ _ _ Hv); eauto.
  - intros HkeyID pub Hpub. split.
    + rewrite AddPublicKey_result by done. by destruct km.
    + rewrite AddPublicKey_entries, Hpub by done. simpl.
      destruct (decide (keyID = defaultKeyID)) as [-> | Hne].
      * by rewrite !lookup_insert_eq.
      * destruct (<[keyID:=pub]> (entries c) !! defaultKeyID);
          rewrite ?(lookup_insert_ne _ defaultKeyID) by done;
          by rewrite lookup_insert_eq.
  - intros HkeyID Hpub. split.
    + rewrite AddPublicKey_result by done. by destruct km.
    + rewrite AddPublicKey_entries by done.
      destruct km; try done; simpl; by rewrite lookup_insert_eq.
  - intros HkeyID Hpriv Hpub Hnil. unfold refused_as_unsupported.
    rewrite AddPublicKey_result, AddPublicKey_entries by done.
    destruct km; simpl in *; done.
  - intros s -> HkeyID.
    rewrite AddPublicKey_result, AddPublicKey_entries by done. done.
  - intros ->. by rewrite AddPublicKey_empty_kid.
Qed.

(** A secret is refused and the registry keeps its single entry; a private
    key leaves its public key behind. *)
Lemma AddPublicKey_stores_public_keys_witness :
  (AddPublicKey (store NewCommonTokenConfig "a" (VRSAPublic rsa_pub2))
     "b" (VString "s3cret")).2
    = Some (ErrUnsupportedKeyType (VString "s3cret") "b")
  ∧ entries (AddPublicKey (store NewCommonTokenConfig "a" (VRSAPublic rsa_pub2))
               "b" (VString "s3cret")).1
    = {["a" := VRSAPublic rsa_pub2]}
  ∧ entries (AddPublicKey NewCommonTokenConfig "k1" (VRSAPrivate rsa_priv1)).1 !! "k1"
    = Some (VRSAPublic rsa_pub1)
  ∧ entries (AddPublicKey NewCommonTokenConfig "k1" (VECDSAPublic ecdsa_pub1)).1 !! "k1"
    = Some (VECDSAPublic ecdsa_pub1)
  ∧ refused_as_unsupported NewCommonTokenConfig "k1" (VOther "int").
Proof.
  pose proof (AddPublicKey_stores_public_keys
                (store NewCommonTokenConfig "a" (VRSAPublic rsa_pub2))
                "b" (VString "s3cret")) as (_ & _ & _ & _ & _ & Hsecret & _).
  pose proof (AddPublicKey_stores_public_keys
                NewCommonTokenConfig "k1" (VRSAPrivate rsa_priv1))
    as (_ & _ & Hpriv & _).
  pose proof (AddPublicKey_stores_public_keys
                NewCommonTokenConfig "k1" (VECDSAPublic ecdsa_pub1))
    as (_ & _ & _ & Hpub & _).
  pose proof (AddPublicKey_stores_public_keys
                NewCommonTokenConfig "k1" (VOther "int"))
    as (_ & _ & _ & _ & Hother & _).
  split_and!.
  - by apply (Hsecret "s3cret").
  - by apply (Hsecret "s3cret").
  - by apply (Hpriv ltac:(done) (VRSAPublic rsa_pub1)).
  - by apply (Hpub ltac:(done) I).
  - apply Hother; simpl; tauto || done.
Defined.

(** With an empty kid the secret is refused by the kid test, before the
    type switch is reached. *)
Lemma secret_at_empty_kid_not_unsupported :
  ¬ refused_as_unsupported NewCommonTokenConfig "" (VString "s3cret")
  ∧ AddPublicKey NewCommonTokenConfig "" (VString "s3cret")
    = (NewCommonTokenConfig, Some ErrKeyIDNotFound).
Proof.
  split; [| reflexivity]. intros [Herr _]. discriminate Herr.
Qed.

(** The nil interface value is not refused: the call returns no error,
    with the key map allocated and nothing stored. *)
Lemma AddPublicKey_nil c keyID :
  keyID ≠ "" → AddPublicKey c keyID VNil = (make_tokenKeys c, None).
Proof. intros HkeyID. unfold AddPublicKey. by case_decide. Qed.

(** C7: over a sequence of AddPublicKey insertions, an entry at the
    default kid "0", once there, is left unchanged by every later insertion
    at a kid other than "0"; in particular the public key of the first
    private key inserted into a registry without default entry stays the
    default entry. *)
Theorem AddPublicKey_first_writer_keeps_default
    (c : CommonTokenConfig) (ins : list (string * KeyMaterial)) :
  Forall (λ i, i.1 ≠ defaultKeyID) ins →
  (∀ d, entries c !! defaultKeyID = Some d →
        entries (AddPublicKeys c ins) !! defaultKeyID = Some d)
  ∧ (∀ keyID km pub,
       entries c !! defaultKeyID = None →
       keyID ≠ "" → derived_public km = Some pub →
       (AddPublicKey c keyID km).2 = None
       ∧ entries (AddPublicKeys (AddPublicKey c keyID km).1 ins) !! defaultKeyID
         = Some pub).
Proof.
  intros Hins. split.
  - intros d Hd. by apply AddPublicKeys_keeps_default.
  - intros keyID km pub Hd HkeyID Hpub. split.
    + rewrite AddPublicKey_result by done. by destruct km.
    + apply AddPublicKeys_keeps_default; [| done].
      by apply AddPublicKey_sets_default.
Qed.

(** The key at "k1" is the first writer; the keys at "k2" and "k3" come
    later and the default entry is still the public key of the first. *)
Lemma AddPublicKey_first_writer_keeps_default_witness :
  entries
    (AddPublicKeys (AddPublicKey NewCommonTokenConfig "k1" (VRSAPrivate rsa_priv1)).1
       [("k2", VRSAPrivate rsa_priv2); ("k3", VRSAPublic rsa_pub2)]) !! "0"
  = Some (VRSAPublic rsa_pub1).
Proof.
  apply (AddPublicKey_first_writer_keeps_default NewCommonTokenConfig
           [("k2", VRSAPrivate rsa_priv2); ("k3", VRSAPublic rsa_pub2)]).
  - repeat (apply Forall_cons; split; [done |]). apply Forall_nil_2.
  - reflexivity.
  - done.
  - reflexivity.
Defined.

(** ** AddKey *)

(** [AddKey] by cases: an unsupported value, a first key, a key of the
    committed family, a key of another family. *)
Lemma AddKey_cases c k pk :
  AddKey c k pk
  = match getKeyType c pk with
    | (_, Some err) => (make_tokenKeys c, Some err)
    | (kt, None) =>
        if decide (tokenType c = "")
        then (store (set_tokenType (make_tokenKeys c) kt) k pk, None)
        else if decide (tokenType c = kt)
             then (store (make_tokenKeys c) k pk, None)
             else (make_tokenKeys c, Some (ErrMixedConfigKeyType (tokenType c) kt))
    end.
Proof.
  unfold AddKey, WithArgs.
  destruct pk; simpl; try done;
    rewrite tokenType_make_tokenKeys;
    repeat case_decide; simpl in *;
    rewrite ?tokenType_make_tokenKeys in *; congruence.
Qed.

Lemma AddKey_family c k pk kt :
  family_of pk kt →
  AddKey c k pk
  = if decide (tokenType c = "")
    then (store (set_tokenType (make_tokenKeys c) kt) k pk, None)
    else if decide (tokenType c = kt)
         then (store (make_tokenKeys c) k pk, None)
         else (make_tokenKeys c, Some (ErrMixedConfigKeyType (tokenType c) kt)).
Proof.
  intros Hfam. rewrite AddKey_cases.
  apply (getKeyType_family c) in Hfam. by rewrite Hfam.
Qed.

Lemma AddKey_unsupported c k pk :
  (∀ kt, ¬ family_of pk kt) → pk ≠ VNil →
  AddKey c k pk = (make_tokenKeys c, Some (ErrUnsupportedConfigKeyType pk)).
Proof.
  intros Hnone Hnil. rewrite AddKey_cases.
  destruct pk; try reflexivity; try done; exfalso; eapply Hnone; constructor.
Qed.

(** The nil interface value passes the classification with the empty
    family: it is stored while no family is committed, and it is of
    another family afterwards. *)
Lemma AddKey_nil c k :
  AddKey c k VNil
  = if decide (tokenType c = "")
    then (store (set_tokenType (make_tokenKeys c) "") k VNil, None)
    else (make_tokenKeys c, Some (ErrMixedConfigKeyType (tokenType c) "")).
Proof. rewrite AddKey_cases. simpl. repeat case_decide; congruence. Qed.

(** A successful [AddKey] commits what the classification returned, the
    family of its key, and stores the key. *)
Lemma AddKey_success c k pk c1 :
  AddKey c k pk = (c1, None) →
  ∃ kt, getKeyType c pk = (kt, None) ∧ tokenType c1 = kt
        ∧ is_Some (tokenKeys c1)
        ∧ entries c1 = <[k := pk]> (entries c).
Proof.
  rewrite AddKey_cases.
  destruct (getKeyType c pk) as [kt [err |]] eqn:Hkt; [done |].
  intros Hadd. exists kt.
  repeat case_decide; simplify_eq; split_and!; simpl; eauto;
    by rewrite ?entries_store, ?entries_set_tokenType,
         ?entries_make_tokenKeys, ?tokenType_make_tokenKeys.
Qed.

Lemma exec_committed c op kt : committed c kt → committed (exec c op).1 kt.
Proof.
  intros (Hne & Hty & Hkeys). destruct op as [name | keyID km | k pk]; simpl.
  - unfold SetOrigin. repeat case_decide; done.
  - unfold AddPublicKey. case_decide; [done |].
    rewrite (make_tokenKeys_allocated c) by done.
    destruct km; simpl; split_and!;
      rewrite ?tokenType_store_default_if_absent; eauto;
      apply tokenKeys_store_default_if_absent; simpl; eauto.
  - rewrite AddKey_cases, (make_tokenKeys_allocated c) by done.
    destruct (getKeyType c pk) as [kt' [err |]]; [done |].
    repeat case_decide; simpl; split_and!; eauto; congruence.
Qed.

Lemma run_committed ops : ∀ c kt, committed c kt → committed (run c ops) kt.
Proof.
  induction ops as [| op ops IH]; intros c kt Hc; [done |].
  unfold run in *. simpl. by apply IH, exec_committed.
Qed.

Lemma AddKey_committed_other c k pk kt kt' :
  committed c kt → family_of pk kt' → kt ≠ kt' →
  AddKey c k pk = (c, Some (ErrMixedConfigKeyType kt kt')).
Proof.
  intros (Hne & Hty & Hkeys) Hfam Hdiff.
  rewrite (AddKey_family _ _ _ _ Hfam), (make_tokenKeys_allocated c) by done.
  repeat case_decide; congruence.
Qed.

(** ** Family consistency *)

(** C2, as the code has it: once AddKey has succeeded on a registry, the
    family of that key is committed, and every later AddKey of a key of
    another family fails with ErrMixedConfigKeyType (carrying the committed
    and the offered family) and changes nothing, whatever the two families
    are and whatever calls came in between.  AddPublicKey takes no part in
    this: it neither commits nor checks a family. *)
Theorem AddKey_rejects_other_family
    (c c1 : CommonTokenConfig) (k k' : string) (pk pk' : KeyMaterial)
    (kt kt' : string) (ops : list call) :
  AddKey c k pk = (c1, None) →
  family_of pk kt → family_of pk' kt' → kt ≠ kt' →
  AddKey (run c1 ops) k' pk'
  = (run c1 ops, Some (ErrMixedConfigKeyType kt kt')).
Proof.
  intros Hadd Hfam Hfam' Hdiff.
  apply AddKey_success in Hadd as (kt0 & Hkt0 & Hty & Hkeys & _).
  assert (kt0 = kt) as ->
    by (rewrite (getKeyType_family c _ _ Hfam) in Hkt0; congruence).
  apply AddKey_committed_other; [| done | done].
  apply run_committed. split_and!; [| done | done].
  by eapply family_of_nonempty.
Qed.

(** After an RSA key, a secret is refused, also with an AddPublicKey call
    in between. *)
Lemma AddKey_rejects_other_family_witness :
  let c1 := (AddKey NewCommonTokenConfig "k1" (VRSAPrivate rsa_priv1)).1 in
  let c2 := run c1 [CallAddPublicKey "k2" (VECDSAPublic ecdsa_pub1)] in
  AddKey c2 "0" (VString "s3cret")
  = (c2, Some (ErrMixedConfigKeyType "rsa" "secret")).
Proof.
  apply (AddKey_rejects_other_family NewCommonTokenConfig _ "k1" "0"
           (VRSAPrivate rsa_priv1) (VString "s3cret") "rsa" "secret"
           [CallAddPublicKey "k2" (VECDSAPublic ecdsa_pub1)]).
  - reflexivity.
  - constructor.
  - constructor.
  - done.
Defined.

(** AddPublicKey accepts an ECDSA key after AddKey committed "rsa", and
    AddKey accepts a secret after AddPublicKey stored an RSA key. *)
Lemma mixed_family_accepted_by_AddPublicKey :
  ¬ rejects_other_family AddKey AddPublicKey
      "a" (VRSAPublic rsa_pub1) "b" (VECDSAPublic ecdsa_pub1)
  ∧ ¬ rejects_other_family AddPublicKey AddKey
      "a" (VRSAPublic rsa_pub1) "b" (VString "s3cret").
Proof.
  split; intros Hrej.
  - specialize (Hrej _ "rsa" "ecdsa" eq_refl).
    by specialize (Hrej ltac:(constructor) ltac:(constructor) ltac:(done)).
  - specialize (Hrej _ "rsa" "secret" eq_refl).
    by specialize (Hrej ltac:(constructor) ltac:(constructor) ltac:(done)).
Qed.

(** ** Empty key identifiers *)

(** C3, as the code has it: AddPublicKey with an empty kid fails with
    ErrKeyIDNotFound for every key value and leaves the configuration as
    it was.  AddKey does not look at the kid: it never fails with
    ErrKeyIDNotFound, and with an empty kid it stores a key of an accepted
    family at the kid "". *)
Theorem empty_kid_rejected_by_AddPublicKey
    (c : CommonTokenConfig) (key : KeyMaterial) :
  rejects_empty_kid AddPublicKey c key
  ∧ AddPublicKey c "" key = (c, Some ErrKeyIDNotFound)
  ∧ (∀ k, (AddKey c k key).2 ≠ Some ErrKeyIDNotFound)
  ∧ (∀ kt, family_of key kt → tokenType c = "" ∨ tokenType c = kt →
           (AddKey c "" key).2 = None
           ∧ entries (AddKey c "" key).1 !! "" = Some key).
Proof.
  split_and!.
  - by split.
  - reflexivity.
  - intros k. rewrite AddKey_cases.
    destruct key; simpl; repeat case_decide; done.
  - intros kt Hfam Hty. rewrite (AddKey_family _ _ _ _ Hfam).
    repeat case_decide; simpl;
      rewrite ?entries_store, ?lookup_insert_eq; intuition congruence.
Qed.

Lemma empty_kid_rejected_by_AddPublicKey_witness :
  AddPublicKey NewCommonTokenConfig "" (VRSAPublic rsa_pub1)
    = (NewCommonTokenConfig, Some ErrKeyIDNotFound)
  ∧ entries (AddKey NewCommonTokenConfig "" (VString "s3cret")).1 !! ""
    = Some (VString "s3cret").
Proof.
  pose proof (empty_kid_rejected_by_AddPublicKey NewCommonTokenConfig
                (VRSAPublic rsa_pub1)) as (_ & Hpub & _).
  pose proof (empty_kid_rejected_by_AddPublicKey NewCommonTokenConfig
                (VString "s3cret")) as (_ & _ & _ & Hkey).
  split; [exact Hpub |].
  apply (Hkey "secret"); [constructor | by left].
Defined.

(** AddKey stores a secret under the empty kid. *)
Lemma empty_kid_accepted_by_AddKey :
  ¬ rejects_empty_kid AddKey NewCommonTokenConfig (VString "s3cret")
  ∧ AddKey NewCommonTokenConfig "" (VString "s3cret")
    = (set_tokenKeys (set_tokenType NewCommonTokenConfig "secret")
         (Some {["" := VString "s3cret"]}), None).
Proof.
  split; [| reflexivity]. intros [Herr _]. discriminate Herr.
Qed.

(** ** A private key into an empty registry *)

(** C1, as the code has it: on an empty registry, AddPublicKey of an RSA
    private key at a kid such as "k1" leaves exactly two entries, and both
    the entry at the kid and the entry at "0" hold the derived public key;
    AddKey of the same key leaves exactly one entry, the private key at
    the kid.  The private key at the kid together with its public key at
    "0" is what AddPublicKey followed by AddKey leaves. *)
Theorem private_key_into_empty_registry
    (c : CommonTokenConfig) (kid : string) (priv : rsa.PrivateKey) :
  entries c = ∅ → tokenType c = "" →
  kid ≠ "" → kid ≠ defaultKeyID →
  let pub := VRSAPublic (rsa.Public priv) in
  let c1 := (AddPublicKey c kid (VRSAPrivate priv)).1 in
  ((AddPublicKey c kid (VRSAPrivate priv)).2 = None
   ∧ entries c1 = {[kid := pub; defaultKeyID := pub]}
   ∧ size (entries c1) = 2)
  ∧ ((AddKey c kid (VRSAPrivate priv)).2 = None
     ∧ entries (AddKey c kid (VRSAPrivate priv)).1 = {[kid := VRSAPrivate priv]}
     ∧ size (entries (AddKey c kid (VRSAPrivate priv)).1) = 1)
  ∧ ((AddKey c1 kid (VRSAPrivate priv)).2 = None
     ∧ entries (AddKey c1 kid (VRSAPrivate priv)).1
       = {[kid := VRSAPrivate priv; defaultKeyID := pub]}
     ∧ size (entries (AddKey c1 kid (VRSAPrivate priv)).1) = 2).
Proof.
  intros Hempty Hty Hkid Hne pub c1.
  assert (Hc1 : entries c1 = {[kid := pub; defaultKeyID := pub]}).
  { subst c1. rewrite AddPublicKey_entries by done. simpl.
    rewrite Hempty, lookup_insert_ne, lookup_empty by done.
    rewrite insert_empty. by apply insert_insert_ne. }
  assert (Hty1 : tokenType c1 = "").
  { subst c1. unfold AddPublicKey. case_decide; [done |]. simpl.
    by rewrite tokenType_store_default_if_absent, tokenType_store,
         tokenType_make_tokenKeys. }
  assert (Hsize2 : ∀ v w : KeyMaterial,
            size ({[kid := v; defaultKeyID := w]} : gmap string KeyMaterial) = 2).
  { intros v w. rewrite map_size_insert_None, map_size_singleton; [done |].
    by rewrite lookup_singleton_ne. }
  split_and!.
  - subst c1. rewrite AddPublicKey_result; done.
  - done.
  - rewrite Hc1. apply Hsize2.
  - rewrite (AddKey_family _ _ _ "rsa") by constructor. by case_decide.
  - rewrite (AddKey_family _ _ _ "rsa") by constructor. case_decide; [| done].
    simpl. by rewrite entries_store, entries_set_tokenType,
                 entries_make_tokenKeys, Hempty.
  - rewrite (AddKey_family _ _ _ "rsa") by constructor. case_decide; [| done].
    simpl. rewrite entries_store, entries_set_tokenType,
             entries_make_tokenKeys, Hempty, insert_empty.
    apply map_size_singleton.
  - rewrite (AddKey_family _ _ _ "rsa") by constructor. by case_decide.
  - rewrite (AddKey_family _ _ _ "rsa") by constructor. case_decide; [| done].
    simpl. rewrite entries_store, entries_set_tokenType,
             entries_make_tokenKeys, Hc1.
    apply insert_insert_eq.
  - rewrite (AddKey_family _ _ _ "rsa") by constructor. case_decide; [| done].
    simpl. rewrite entries_store, entries_set_tokenType,
             entries_make_tokenKeys, Hc1.
    rewrite insert_insert_eq. apply Hsize2.
Qed.

Lemma private_key_into_empty_registry_witness :
  entries (AddPublicKey NewCommonTokenConfig "k1" (VRSAPrivate rsa_priv1)).1
    = {["k1" := VRSAPublic rsa_pub1; "0" := VRSAPublic rsa_pub1]}
  ∧ entries (AddKey NewCommonTokenConfig "k1" (VRSAPrivate rsa_priv1)).1
    = {["k1" := VRSAPrivate rsa_priv1]}.
Proof.
  pose proof (private_key_into_empty_registry NewCommonTokenConfig "k1"
                rsa_priv1 eq_refl eq_refl ltac:(done) ltac:(done))
    as ((_ & Hpub & _) & (_ & Hkey & _) & _).
  split; [exact Hpub | exact Hkey].
Defined.

(** At "k1" AddPublicKey leaves the public key, not the private one, and
    AddKey leaves no default entry. *)
Lemma private_key_not_kept_with_default :
  ¬ private_then_default AddPublicKey "k1" rsa_priv1
  ∧ ¬ private_then_default AddKey "k1" rsa_priv1.
Proof.
  split; intros (Hsize & Hkid & Hdefault).
  - discriminate Hkid.
  - discriminate Hdefault.
Qed.

(** ** GetPrivateKey *)

(** What the loop returns from inside is an entry it visited, at a kid
    other than the default one, holding a private key. *)
Lemma range_private_Some order k kid :
  range_private order = Some (k, kid) →
  (kid, k) ∈ order ∧ kid ≠ defaultKeyID ∧ is_private_key k.
Proof.
  induction order as [| [keyID0 k0] order IH]; simpl; [done |].
  case_decide as Hdef.
  - intros Hrest. destruct (IH Hrest) as (Hin & Hne & Hpriv).
    split_and!; [by right | done | done].
  - destruct k0; try (intros [= <- <-]; split_and!; [by left | done | done]);
      intros Hrest; destruct (IH Hrest) as (Hin & Hne & Hpriv);
      (split_and!; [by right | done | done]).
Qed.

(** The loop falls through exactly when no visited entry qualifies. *)
Lemma range_private_None order :
  range_private order = None ↔
  ∀ kid k, (kid, k) ∈ order → kid ≠ defaultKeyID → ¬ is_private_key k.
Proof.
  induction order as [| [keyID0 k0] order IH]; simpl.
  - split; [| done]. intros _ kid k Hin. by apply elem_of_nil in Hin.
  - split.
    + intros Hnone kid k Hin Hne Hpriv.
      apply elem_of_cons in Hin as [[= -> ->] | Hin].
      * case_decide; [done |]. by destruct k0.
      * assert (range_private order = None) as Hrest.
        { case_decide; [done |]. by destruct k0. }
        by eapply (proj1 IH Hrest).
    + intros Hall.
      assert (range_private order = None) as Hrest.
      { apply IH. intros kid k Hin. apply Hall. by right. }
      case_decide; [done |].
      destruct k0; try done; exfalso;
        (eapply (Hall keyID0); [by left | done | exact I]).
Qed.

Lemma iteration_order_elem c order kid k :
  iteration_order c order → ((kid, k) ∈ order ↔ entries c !! kid = Some k).
Proof.
  unfold iteration_order. intros Hperm.
  rewrite Hperm. apply elem_of_map_to_list.
Qed.

(** The method returns: the entries can be visited in some order. *)
Lemma GetPrivateKey_returns c : ∃ r, GetPrivateKey c r.
Proof.
  exists (GetPrivateKey_in (map_to_list (entries c)) c), (map_to_list (entries c)).
  split; [unfold iteration_order |]; reflexivity.
Qed.

(** The calls of the package never commit a family on a nil registry. *)
Lemma run_from_new_allocated ops :
  let c := run NewCommonTokenConfig ops in
  tokenType c ≠ "" → is_Some (tokenKeys c).
Proof.
  simpl.
  assert (Hinv : ∀ c, (tokenType c ≠ "" → is_Some (tokenKeys c)) →
            ∀ op, tokenType (exec c op).1 ≠ "" → is_Some (tokenKeys (exec c op).1)).
  { intros c Hc [name | keyID km | k pk]; simpl.
    - unfold SetOrigin. repeat case_decide; done.
    - unfold AddPublicKey. case_decide; [done |].
      pose proof (tokenKeys_make_tokenKeys c).
      destruct km; simpl; intros _; eauto;
        apply tokenKeys_store_default_if_absent; simpl; eauto.
    - rewrite AddKey_cases. pose proof (tokenKeys_make_tokenKeys c).
      destruct (getKeyType c pk) as [kt [err |]]; [done |].
      repeat case_decide; simpl; eauto. }
  assert (Hrun : ∀ c, (tokenType c ≠ "" → is_Some (tokenKeys c)) →
            tokenType (run c ops) ≠ "" → is_Some (tokenKeys (run c ops))).
  { induction ops as [| op ops IH]; intros c Hc; [done |].
    unfold run in *. simpl. apply IH. by apply Hinv. }
  apply Hrun. done.
Qed.

(** C4: GetPrivateKey returns, and on every registry without RSA or ECDSA
    private key at a kid other than "0", such as a registry that holds the
    derived default public key only, it fails with ErrECDSAKeysNotFound
    when the committed family is "ecdsa" and with ErrRSAKeysNotFound
    otherwise.  This holds on every configuration the calls of the package
    build from a new one, and on every configuration in which the family
    "ecdsa" comes with an allocated key map, as AddKey commits it.  When
    some entry at a kid other than "0" holds a private key, GetPrivateKey
    returns such an entry, the key with its kid, and never the entry at
    "0". *)
Theorem GetPrivateKey_found_or_family_error (c : CommonTokenConfig) :
  (∃ r, GetPrivateKey c r)
  ∧ (∀ ops, not_found_by_family (run NewCommonTokenConfig ops))
  ∧ ((tokenType c = "ecdsa" → is_Some (tokenKeys c)) → not_found_by_family c)
  ∧ ((∃ kid k, entries c !! kid = Some k ∧ kid ≠ defaultKeyID ∧ is_private_key k) →
     ∀ r, GetPrivateKey c r →
       ∃ k kid, r = (k, kid, None) ∧ kid ≠ defaultKeyID
                ∧ entries c !! kid = Some k ∧ is_private_key k).
Proof.
  assert (Hfamily : ∀ c0, (tokenType c0 = "ecdsa" → is_Some (tokenKeys c0)) →
                          not_found_by_family c0).
  { intros c0 Halloc Hnone r (order & Horder & ->).
    unfold GetPrivateKey_in, family_not_found.
    destruct (tokenKeys c0) as [m |] eqn:Hm.
    - assert (range_private order = None) as ->.
      { apply range_private_None. intros kid k Hin.
        apply (iteration_order_elem c0) in Hin; [| done]. by apply Hnone. }
      by case_decide.
    - case_decide as Hty; [| done]. by destruct (Halloc Hty). }
  split_and!.
  - apply GetPrivateKey_returns.
  - intros ops. apply Hfamily. intros Hty.
    apply (run_from_new_allocated ops). by rewrite Hty.
  - apply Hfamily.
  - intros (kid0 & k0 & Hk0 & Hne0 & Hpriv0) r (order & Horder & ->).
    unfold GetPrivateKey_in.
    destruct (tokenKeys c) as [m |] eqn:Hm.
    + destruct (range_private order) as [[k kid] |] eqn:Hrange.
      * apply range_private_Some in Hrange as (Hin & Hne & Hpriv).
        apply (iteration_order_elem c) in Hin; [| done]. eauto 10.
      * exfalso. eapply (proj1 (range_private_None order) Hrange kid0 k0); eauto.
        by apply (iteration_order_elem c).
    + unfold entries in Hk0. by rewrite Hm in Hk0.
Qed.

(** With the derived public key at "0" only, the error follows the family;
    with a private key at "k1", that key is returned in either order. *)
Lemma GetPrivateKey_found_or_family_error_witness :
  let c0 := (AddPublicKey NewCommonTokenConfig "0" (VRSAPrivate rsa_priv1)).1 in
  let c1 := (AddKey NewCommonTokenConfig "0" (VECDSAPublic ecdsa_pub1)).1 in
  let c2 := (AddKey (AddPublicKey NewCommonTokenConfig "k0" (VRSAPrivate rsa_priv1)).1
               "k1" (VRSAPrivate rsa_priv1)).1 in
  (∀ r, GetPrivateKey c0 r → r = (VNil, "", Some ErrRSAKeysNotFound))
  ∧ (∀ r, GetPrivateKey c1 r → r = (VNil, "", Some ErrECDSAKeysNotFound))
  ∧ (∀ r, GetPrivateKey c2 r →
       ∃ k kid, r = (k, kid, None) ∧ kid ≠ defaultKeyID
                ∧ entries c2 !! kid = Some k ∧ is_private_key k).
Proof.
  intros c0 c1 c2. split_and!.
  - apply (GetPrivateKey_found_or_family_error c0).
    + by intros [=].
    + intros kid k Hk Hne.
      assert (entries c0 = {["0" := VRSAPublic rsa_pub1]}) as Hc0
        by reflexivity.
      rewrite Hc0 in Hk.
      apply lookup_singleton_Some in Hk as [<- _]. done.
  - apply (GetPrivateKey_found_or_family_error c1).
    + intros _. by eexists.
    + intros kid k Hk Hne.
      assert (entries c1 = {["0" := VECDSAPublic ecdsa_pub1]}) as Hc1
        by reflexivity.
      rewrite Hc1 in Hk.
      apply lookup_singleton_Some in Hk as [<- _]. done.
  - apply (GetPrivateKey_found_or_family_error c2).
    exists "k1", (VRSAPrivate rsa_priv1). by split_and!.
Defined.

(** * Further properties of the registry and of the origin tracker *)

(** ** What a call leaves untouched *)

Lemma SetOrigin_registry c name :
  tokenKeys (SetOrigin c name).1 = tokenKeys c
  ∧ tokenType (SetOrigin c name).1 = tokenType c.
Proof. unfold SetOrigin. repeat case_decide; done. Qed.

Lemma entries_SetOrigin c name : entries (SetOrigin c name).1 = entries c.
Proof. unfold entries. by rewrite (proj1 (SetOrigin_registry c name)). Qed.

Lemma AddPublicKey_tokenType c keyID km :
  tokenType (AddPublicKey c keyID km).1 = tokenType c.
Proof.
  unfold AddPublicKey. case_decide; [done |].
  destruct km; simpl;
    rewrite ?tokenType_store_default_if_absent, ?tokenType_store;
    apply tokenType_make_tokenKeys.
Qed.

(** What [AddKey] leaves in the registry and in the family tag. *)
Lemma AddKey_entries c k pk :
  entries (AddKey c k pk).1
  = match (AddKey c k pk).2 with
    | None => <[k := pk]> (entries c)
    | Some _ => entries c
    end.
Proof.
  rewrite AddKey_cases.
  destruct (getKeyType c pk) as [kt [err |]]; simpl;
    [apply entries_make_tokenKeys |].
  repeat case_decide; simpl;
    by rewrite ?entries_store, ?entries_set_tokenType, ?entries_make_tokenKeys.
Qed.

Lemma AddKey_tokenType c k pk :
  tokenType (AddKey c k pk).1
  = match (AddKey c k pk).2 with
    | None => if decide (tokenType c = "") then (getKeyType c pk).1 else tokenType c
    | Some _ => tokenType c
    end.
Proof.
  rewrite AddKey_cases.
  destruct (getKeyType c pk) as [kt [err |]]; simpl;
    [apply tokenType_make_tokenKeys |].
  repeat case_decide; simpl; by rewrite ?tokenType_make_tokenKeys.
Qed.

Lemma AddKey_allocates c k pk : is_Some (tokenKeys (AddKey c k pk).1).
Proof.
  rewrite AddKey_cases. pose proof (tokenKeys_make_tokenKeys c).
  destruct (getKeyType c pk) as [kt [err |]]; [done |].
  repeat case_decide; simpl; eauto.
Qed.

Lemma exec_entries_mono c op kid :
  is_Some (entries c !! kid) → is_Some (entries (exec c op).1 !! kid).
Proof.
  intros Hkid. destruct op as [name | keyID km | k pk]; simpl.
  - by rewrite entries_SetOrigin.
  - destruct (decide (keyID = "")) as [-> | HkeyID]; [done |].
    rewrite AddPublicKey_entries by done.
    destruct (derived_public km) as [pub |]; simpl.
    + destruct (<[keyID:=pub]> (entries c) !! defaultKeyID);
        rewrite ?lookup_insert; repeat case_decide; eauto.
    + destruct km; try done; rewrite lookup_insert; case_decide; eauto.
  - rewrite AddKey_entries. destruct (AddKey c k pk).2; [done |].
    rewrite lookup_insert. case_decide; eauto.
Qed.

Lemma exec_allocated c op :
  is_Some (tokenKeys c) → is_Some (tokenKeys (exec c op).1).
Proof.
  intros Hkeys. destruct op as [name | keyID km | k pk]; simpl.
  - by rewrite (proj1 (SetOrigin_registry c name)).
  - unfold AddPublicKey. case_decide; [done |].
    rewrite (make_tokenKeys_allocated c) by done.
    destruct km; simpl; eauto;
      apply tokenKeys_store_default_if_absent; simpl; eauto.
  - apply AddKey_allocates.
Qed.

(** X1: No call removes an entry or gives up the allocated key map: over any
    sequence of SetOrigin, AddPublicKey and AddKey calls, failed ones
    included, a kid that has an entry keeps one, the number of entries
    does not go down, and a non-nil key map stays non-nil. *)
Theorem registry_never_shrinks (c : CommonTokenConfig) (ops : list call) :
  (∀ kid, is_Some (entries c !! kid) → is_Some (entries (run c ops) !! kid))
  ∧ (size (entries c) ≤ size (entries (run c ops)))%nat
  ∧ (is_Some (tokenKeys c) → is_Some (tokenKeys (run c ops))).
Proof.
  assert (Hkids : ∀ ops c kid, is_Some (entries c !! kid) →
                               is_Some (entries (run c ops) !! kid)).
  { clear. induction ops as [| op ops IH]; intros c kid Hkid; [done |].
    unfold run in *. simpl. by apply IH, exec_entries_mono. }
  split_and!.
  - apply Hkids.
  - rewrite <- !size_dom. apply subseteq_size. intros kid.
    rewrite !elem_of_dom. apply Hkids.
  - revert c. induction ops as [| op ops IH]; intros c Hkeys; [done |].
    unfold run in *. simpl. by apply IH, exec_allocated.
Qed.

(** The entry at "k1" is still there after a refused secret, an accepted
    origin and a second key. *)
Lemma registry_never_shrinks_witness :
  is_Some (entries
    (run (AddKey NewCommonTokenConfig "k1" (VRSAPrivate rsa_priv1)).1
       [CallAddKey "s" (VString "s3cret"); CallSetOrigin "env";
        CallAddPublicKey "k2" (VRSAPrivate rsa_priv2)]) !! "k1").
Proof.
  apply (registry_never_shrinks
           (AddKey NewCommonTokenConfig "k1" (VRSAPrivate rsa_priv1)).1).
  by eexists.
Defined.

(** ** AddKey: outcome, lookup after insert, family *)

Lemma AddKey_tokenOrigin c k pk : tokenOrigin (AddKey c k pk).1 = tokenOrigin c.
Proof.
  rewrite AddKey_cases.
  destruct (getKeyType c pk) as [kt [err |]]; simpl;
    [apply tokenOrigin_make_tokenKeys |].
  repeat case_decide; simpl; by rewrite ?tokenOrigin_make_tokenKeys.
Qed.

Lemma family_of_dec k : (∃ kt, family_of k kt) ∨ (∀ kt, ¬ family_of k kt).
Proof.
  destruct k; try (left; eexists; constructor); right; intros kt Hfam;
    inversion Hfam.
Qed.

Lemma KeyMaterial_cases k :
  (∃ kt, family_of k kt) ∨ k = VNil ∨ ((∀ kt, ¬ family_of k kt) ∧ k ≠ VNil).
Proof.
  destruct k; try (left; eexists; constructor); [by right; left |].
  right; right. split; [| done]. intros kt Hfam. inversion Hfam.
Qed.

(** X2: AddKey succeeds exactly on a key that has a family when no family
    is committed yet or the committed family is that of the key, and on
    the nil interface value when no family is committed; the kid plays no
    part.  Otherwise the error is ErrUnsupportedConfigKeyType for a value
    that has no family and is not nil, and ErrMixedConfigKeyType, with the
    committed and the offered family, for a key of another family and,
    with the empty string as offered family, for nil. *)
Theorem AddKey_outcome (c : CommonTokenConfig) (k : string) (pk : KeyMaterial) :
  ((AddKey c k pk).2 = None ↔
     (∃ kt, family_of pk kt ∧ (tokenType c = "" ∨ tokenType c = kt))
     ∨ (pk = VNil ∧ tokenType c = ""))
  ∧ ((AddKey c k pk).2 = Some (ErrUnsupportedConfigKeyType pk) ↔
     (∀ kt, ¬ family_of pk kt) ∧ pk ≠ VNil)
  ∧ (∀ kt, family_of pk kt → tokenType c ≠ "" → tokenType c ≠ kt →
           (AddKey c k pk).2 = Some (ErrMixedConfigKeyType (tokenType c) kt))
  ∧ (pk = VNil → tokenType c ≠ "" →
     (AddKey c k pk).2 = Some (ErrMixedConfigKeyType (tokenType c) "")).
Proof.
  split_and!.
  - split.
    + intros Hok.
      destruct (KeyMaterial_cases pk) as [[kt Hfam] | [-> | [Hnone Hnil]]].
      * left. exists kt. split; [done |].
        rewrite (AddKey_family _ _ _ _ Hfam) in Hok.
        repeat case_decide; simpl in Hok; eauto; done.
      * right. split; [done |]. rewrite AddKey_nil in Hok. by case_decide.
      * by rewrite AddKey_unsupported in Hok.
    + intros [(kt & Hfam & Hty) | [-> Hty]].
      * rewrite (AddKey_family _ _ _ _ Hfam).
        repeat case_decide; simpl; intuition congruence.
      * rewrite AddKey_nil. by case_decide.
  - split.
    + intros Herr. split.
      * intros kt Hfam. rewrite (AddKey_family _ _ _ _ Hfam) in Herr.
        repeat case_decide; simpl in Herr; congruence.
      * intros ->. rewrite AddKey_nil in Herr. by case_decide.
    + intros [Hnone Hnil]. by rewrite AddKey_unsupported.
  - intros kt Hfam Hne Hdiff. rewrite (AddKey_family _ _ _ _ Hfam).
    repeat case_decide; simpl; congruence.
  - intros -> Hne. rewrite AddKey_nil. by case_decide.
Qed.

(** On a new configuration every key with a family is accepted, at any
    kid, and so is nil; an integer is not.  After an RSA key nil is of
    another family. *)
Lemma AddKey_outcome_witness :
  (AddKey NewCommonTokenConfig "k1" (VECDSAPrivate ecdsa_priv1)).2 = None
  ∧ (AddKey NewCommonTokenConfig "k1" (VOther "int")).2
    = Some (ErrUnsupportedConfigKeyType (VOther "int"))
  ∧ (AddKey NewCommonTokenConfig "a" VNil).2 = None
  ∧ (AddKey (AddKey NewCommonTokenConfig "k1" (VRSAPublic rsa_pub1)).1 "a" VNil).2
    = Some (ErrMixedConfigKeyType "rsa" "").
Proof.
  pose proof (AddKey_outcome NewCommonTokenConfig "k1" (VECDSAPrivate ecdsa_priv1))
    as (Hok & _).
  pose proof (AddKey_outcome NewCommonTokenConfig "k1" (VOther "int"))
    as (_ & Hbad & _).
  pose proof (AddKey_outcome NewCommonTokenConfig "a" VNil) as (Hnil & _).
  pose proof (AddKey_outcome
                (AddKey NewCommonTokenConfig "k1" (VRSAPublic rsa_pub1)).1 "a" VNil)
    as (_ & _ & _ & Hmixed).
  split_and!.
  - apply Hok. left. exists "ecdsa". split; [constructor | by left].
  - apply Hbad. split; [| done]. intros kt Hfam. inversion Hfam.
  - apply Hnil. by right.
  - by apply Hmixed.
Defined.

(** X3: After a successful AddKey, GetKeys shows the family of the key
    (the empty family when the value is nil) and a map in which the kid
    holds the value as it was given, a private key included, and every
    other kid holds what it held before: AddKey derives no public key and
    writes no default entry. *)
Theorem AddKey_then_GetKeys
    (c c1 : CommonTokenConfig) (k : string) (pk : KeyMaterial) :
  AddKey c k pk = (c1, None) →
  ∃ kt m, GetKeys c1 = (kt, Some m)
          ∧ (family_of pk kt ∨ (pk = VNil ∧ kt = ""))
          ∧ m !! k = Some pk
          ∧ (∀ k', k' ≠ k → m !! k' = entries c !! k')
          ∧ m = <[k := pk]> (entries c).
Proof.
  intros Hadd.
  apply AddKey_success in Hadd as (kt & Hkt & Hty & [m Hm] & Hentries).
  apply getKeyType_ok in Hkt.
  exists kt, m. unfold GetKeys. rewrite Hty, Hm.
  unfold entries in Hentries at 1. rewrite Hm in Hentries. simpl in Hentries.
  subst m. split_and!; try done.
  - apply lookup_insert_eq.
  - intros k' Hne. by apply lookup_insert_ne.
Qed.

Lemma AddKey_then_GetKeys_witness :
  ∃ kt m, GetKeys (AddKey NewCommonTokenConfig "0" (VRSAPrivate rsa_priv1)).1
          = (kt, Some m)
          ∧ (family_of (VRSAPrivate rsa_priv1) kt
             ∨ (VRSAPrivate rsa_priv1 = VNil ∧ kt = ""))
          ∧ m !! "0" = Some (VRSAPrivate rsa_priv1)
          ∧ (∀ k', k' ≠ "0" → m !! k' = entries NewCommonTokenConfig !! k')
          ∧ m = <["0" := VRSAPrivate rsa_priv1]> (entries NewCommonTokenConfig).
Proof.
  apply (AddKey_then_GetKeys NewCommonTokenConfig _ "0" (VRSAPrivate rsa_priv1)).
  reflexivity.
Defined.

(** X4: A failed AddKey changes no entry, no family and no origin; all it may
    do is allocate the key map, which is never nil after a call. *)
Theorem AddKey_failure_keeps_registry
    (c : CommonTokenConfig) (k : string) (pk : KeyMaterial) :
  is_Some (tokenKeys (AddKey c k pk).1)
  ∧ GetOrigin (AddKey c k pk).1 = GetOrigin c
  ∧ ((AddKey c k pk).2 ≠ None →
     entries (AddKey c k pk).1 = entries c
     ∧ tokenType (AddKey c k pk).1 = tokenType c
     ∧ (is_Some (tokenKeys c) → (AddKey c k pk).1 = c)).
Proof.
  split_and!.
  - apply AddKey_allocates.
  - unfold GetOrigin. by rewrite AddKey_tokenOrigin.
  - intros Herr. rewrite AddKey_entries, AddKey_tokenType.
    destruct (AddKey c k pk).2 eqn:Hr; [| done]. split_and!; try done.
    intros Hkeys. rewrite AddKey_cases in *.
    rewrite (make_tokenKeys_allocated c) in * by done.
    destruct (getKeyType c pk) as [kt [err |]]; [done |].
    repeat case_decide; simpl in *; congruence.
Qed.

(** The refused secret leaves the RSA registry as it was. *)
Lemma AddKey_failure_keeps_registry_witness :
  let c := (AddKey NewCommonTokenConfig "k1" (VRSAPublic rsa_pub1)).1 in
  (AddKey c "k2" (VString "s3cret")).1 = c.
Proof.
  intros c.
  apply (AddKey_failure_keeps_registry c "k2" (VString "s3cret")).
  - done.
  - by eexists.
Defined.

(** ** Sequences of AddKey calls *)

Lemma AddKeys_app c ins1 ins2 :
  AddKeys c (ins1 ++ ins2) = AddKeys (AddKeys c ins1) ins2.
Proof. apply foldl_app. Qed.

Lemma AddKey_tokenType_committed c k pk :
  tokenType c ≠ "" → tokenType (AddKey c k pk).1 = tokenType c.
Proof.
  intros Hne. rewrite AddKey_tokenType.
  destruct (AddKey c k pk).2; [done |]. by case_decide.
Qed.

Lemma AddKeys_tokenType_committed ins : ∀ c,
  tokenType c ≠ "" → tokenType (AddKeys c ins) = tokenType c.
Proof.
  induction ins as [| [k pk] ins IH]; intros c Hne; [done |].
  unfold AddKeys in *. simpl.
  rewrite IH; rewrite AddKey_tokenType_committed; done.
Qed.

Lemma AddKey_no_family c k pk :
  (∀ kt, ¬ family_of pk kt) →
  tokenType (AddKey c k pk).1 = tokenType c
  ∧ (∀ kid v, entries (AddKey c k pk).1 !! kid = Some v →
              entries c !! kid = Some v ∨ v = VNil).
Proof.
  intros Hnone.
  destruct (KeyMaterial_cases pk) as [[kt Hfam] | [-> | [_ Hnil]]].
  - by destruct (Hnone kt).
  - rewrite AddKey_nil. case_decide as Hty; simpl.
    + split; [done |]. intros kid v.
      rewrite entries_store, entries_set_tokenType, entries_make_tokenKeys.
      rewrite lookup_insert. case_decide; intros; simplify_eq; eauto.
    + rewrite tokenType_make_tokenKeys, entries_make_tokenKeys. eauto.
  - rewrite AddKey_unsupported by done. simpl.
    rewrite tokenType_make_tokenKeys, entries_make_tokenKeys. eauto.
Qed.

Lemma AddKeys_no_family bad : ∀ c,
  Forall (λ i, ∀ kt, ¬ family_of i.2 kt) bad →
  tokenType (AddKeys c bad) = tokenType c
  ∧ (∀ kid v, entries (AddKeys c bad) !! kid = Some v →
              entries c !! kid = Some v ∨ v = VNil).
Proof.
  induction bad as [| [k pk] bad IH]; intros c Hbad; [by eauto |].
  apply Forall_cons in Hbad as [Hpk Hbad]. unfold AddKeys in *. simpl in *.
  destruct (IH (AddKey c k pk).1 Hbad) as [-> Hentries].
  destruct (AddKey_no_family c k pk Hpk) as [-> Hstep].
  split; [done |]. intros kid v Hv.
  destruct (Hentries _ _ Hv) as [Hmid | ->]; [| by right].
  by apply Hstep.
Qed.

(** X5: The first key with a family fixes the family: over a sequence of
    AddKey calls on a configuration without committed family, the values
    without family commit nothing, those other than nil are refused with
    ErrUnsupportedConfigKeyType and nothing but nil is stored, the first
    key that has a family is accepted, and the family tag is the family of
    that key after the whole sequence, whatever follows. *)
Theorem AddKeys_first_family_commits
    (c : CommonTokenConfig) (bad rest : list (string * KeyMaterial))
    (k : string) (pk : KeyMaterial) (kt : string) :
  tokenType c = "" →
  Forall (λ i, ∀ kt, ¬ family_of i.2 kt) bad →
  family_of pk kt →
  tokenType (AddKeys c bad) = ""
  ∧ Forall (λ i, i.2 ≠ VNil →
                 ∀ c0, AddKey c0 i.1 i.2
                       = (make_tokenKeys c0, Some (ErrUnsupportedConfigKeyType i.2)))
      bad
  ∧ (∀ kid v, entries (AddKeys c bad) !! kid = Some v →
              entries c !! kid = Some v ∨ v = VNil)
  ∧ (AddKey (AddKeys c bad) k pk).2 = None
  ∧ tokenType (AddKeys c (bad ++ (k, pk) :: rest)) = kt.
Proof.
  intros Hty Hbad Hfam.
  destruct (AddKeys_no_family bad c Hbad) as [Hty' Hentries].
  rewrite Hty in Hty'.
  assert (Hadd : AddKey (AddKeys c bad) k pk
                 = (store (set_tokenType (make_tokenKeys (AddKeys c bad)) kt) k pk,
                    None)).
  { rewrite (AddKey_family _ _ _ _ Hfam). by case_decide. }
  split_and!; [done | | done | by rewrite Hadd |].
  - eapply Forall_impl; [exact Hbad |]. intros [k0 pk0] Hnone Hnil c0.
    by apply AddKey_unsupported.
  - rewrite AddKeys_app. unfold AddKeys at 1. simpl. fold (AddKeys c bad).
    fold (AddKeys (AddKey (AddKeys c bad) k pk).1 rest).
    rewrite AddKeys_tokenType_committed; rewrite Hadd; simpl; [done |].
    by eapply family_of_nonempty.
Qed.

(** nil and an integer commit nothing, the ECDSA key commits "ecdsa", and
    the RSA key and the secret that follow do not change that. *)
Lemma AddKeys_first_family_commits_witness :
  tokenType
    (AddKeys NewCommonTokenConfig
       ([("a", VNil); ("b", VOther "int")]
        ++ ("k1", VECDSAPublic ecdsa_pub1)
           :: [("k2", VRSAPublic rsa_pub1); ("0", VString "s3cret")]))
  = "ecdsa".
Proof.
  apply (AddKeys_first_family_commits NewCommonTokenConfig
           [("a", VNil); ("b", VOther "int")]
           [("k2", VRSAPublic rsa_pub1); ("0", VString "s3cret")]
           "k1" (VECDSAPublic ecdsa_pub1) "ecdsa").
  - reflexivity.
  - repeat (apply Forall_cons; split; [intros kt Hfam; inversion Hfam |]).
    apply Forall_nil_2.
  - constructor.
Defined.

Lemma AddKey_same_family c k pk : same_family c → same_family (AddKey c k pk).1.
Proof.
  intros Hsame kid v.
  destruct (KeyMaterial_cases pk) as [[kt Hfam] | [-> | [Hnone Hnil]]].
  - rewrite (AddKey_family _ _ _ _ Hfam).
    case_decide as Hty; [| case_decide as Hkt]; simpl.
    + rewrite entries_store, entries_set_tokenType, entries_make_tokenKeys.
      rewrite lookup_insert. case_decide; intros Hv; simplify_eq; [by right |].
      destruct (Hsame _ _ Hv) as [-> | Hf]; [by left |].
      rewrite Hty in Hf. by apply family_of_nonempty in Hf.
    + rewrite entries_store, entries_make_tokenKeys, tokenType_make_tokenKeys.
      rewrite lookup_insert. case_decide; intros Hv; simplify_eq; [by right |].
      by apply (Hsame kid).
    + rewrite entries_make_tokenKeys, tokenType_make_tokenKeys. apply Hsame.
  - rewrite AddKey_nil. case_decide as Hty; simpl.
    + rewrite entries_store, entries_set_tokenType, entries_make_tokenKeys.
      rewrite lookup_insert. case_decide; intros Hv; simplify_eq; [by left |].
      rewrite <- Hty. by apply (Hsame kid).
    + rewrite entries_make_tokenKeys, tokenType_make_tokenKeys. apply Hsame.
  - rewrite AddKey_unsupported by done. simpl.
    rewrite entries_make_tokenKeys, tokenType_make_tokenKeys. apply Hsame.
Qed.

(** X6: AddKey keeps the keys of the registry in one family: if every entry
    is of the committed family or nil, as in a new configuration, then
    after any sequence of AddKey calls every entry is of the committed
    family or nil, so that no two entries are keys of different
    families. *)
Theorem AddKeys_same_family
    (c : CommonTokenConfig) (ins : list (string * KeyMaterial)) :
  same_family c →
  same_family (AddKeys c ins)
  ∧ (∀ kid1 k1 kid2 k2 kt1 kt2,
       entries (AddKeys c ins) !! kid1 = Some k1 →
       entries (AddKeys c ins) !! kid2 = Some k2 →
       family_of k1 kt1 → family_of k2 kt2 → kt1 = kt2).
Proof.
  intros Hsame.
  assert (Hrun : same_family (AddKeys c ins)).
  { revert c Hsame. induction ins as [| [k pk] ins IH]; intros c Hsame; [done |].
    unfold AddKeys in *. simpl. by apply IH, AddKey_same_family. }
  split; [done |].
  assert (Htag : ∀ kid k kt, entries (AddKeys c ins) !! kid = Some k →
                             family_of k kt → kt = tokenType (AddKeys c ins)).
  { intros kid k kt Hk Hfam. destruct (Hrun _ _ Hk) as [-> | Hf].
    - by apply family_of_not_nil in Hfam.
    - eapply family_of_functional; eauto. }
  intros kid1 k1 kid2 k2 kt1 kt2 H1 H2 Hf1 Hf2.
  rewrite (Htag _ _ _ H1 Hf1). symmetry. by apply (Htag _ _ _ H2 Hf2).
Qed.

(** After nil, an RSA private key, an ECDSA key and an RSA public key, the
    registry holds nil and RSA keys only. *)
Lemma AddKeys_same_family_witness :
  same_family
    (AddKeys NewCommonTokenConfig
       [("a", VNil); ("k1", VRSAPrivate rsa_priv1);
        ("k2", VECDSAPublic ecdsa_pub1); ("k3", VRSAPublic rsa_pub2)]).
Proof.
  apply (AddKeys_same_family NewCommonTokenConfig).
  intros kid k Hk. unfold entries in Hk. simpl in Hk.
  by rewrite lookup_empty in Hk.
Defined.

(** ** Which key GetPrivateKey can return *)

Lemma is_public_not_private k : is_public_key k → ¬ is_private_key k.
Proof. destruct k; simpl; tauto. Qed.

(** Without a private key at a kid other than the default one, the only
    result is the error of the nil guard or of the family. *)
Lemma GetPrivateKey_none c r :
  no_private_key c → GetPrivateKey c r →
  r = (VNil, "", match tokenKeys c with
                 | None => Some ErrRSAKeysNotFound
                 | Some _ => family_not_found c
                 end).
Proof.
  intros Hnone (order & Horder & ->). unfold GetPrivateKey_in, family_not_found.
  destruct (tokenKeys c) as [m |] eqn:Hm; [| done].
  assert (range_private order = None) as ->.
  { apply range_private_None. intros kid k Hin.
    apply (iteration_order_elem c) in Hin; [| done]. by apply Hnone. }
  by case_decide.
Qed.

(** A result without error is an entry of the registry, at a kid other
    than the default one, holding a private key. *)
Lemma GetPrivateKey_found c k kid :
  GetPrivateKey c (k, kid, None) →
  entries c !! kid = Some k ∧ kid ≠ defaultKeyID ∧ is_private_key k.
Proof.
  intros (order & Horder & Hres). unfold GetPrivateKey_in in Hres.
  destruct (tokenKeys c) as [m |]; [| done].
  destruct (range_private order) as [[k0 kid0] |] eqn:Hrange.
  - injection Hres as -> ->.
    apply range_private_Some in Hrange as (Hin & Hne & Hpriv).
    by apply (iteration_order_elem c) in Hin.
  - by case_decide.
Qed.

(** X7: With a single private key outside the default kid, the order in which
    the map is visited does not matter: GetPrivateKey has one result, that
    key with its kid, whatever else the registry holds. *)
Theorem GetPrivateKey_single_private_key
    (c : CommonTokenConfig) (kid : string) (k : KeyMaterial) :
  entries c !! kid = Some k → kid ≠ defaultKeyID → is_private_key k →
  only_private_key c kid k →
  ∀ r, GetPrivateKey c r ↔ r = (k, kid, None).
Proof.
  intros Hk Hne Hpriv Honly r. split.
  - intros (order & Horder & ->). unfold GetPrivateKey_in.
    destruct (tokenKeys c) as [m |] eqn:Hm.
    + destruct (range_private order) as [[k0 kid0] |] eqn:Hrange.
      * apply range_private_Some in Hrange as (Hin & Hne0 & Hpriv0).
        apply (iteration_order_elem c) in Hin; [| done].
        by destruct (Honly _ _ Hin Hne0 Hpriv0) as [-> ->].
      * exfalso. eapply (proj1 (range_private_None order) Hrange kid k); eauto.
        by apply (iteration_order_elem c).
    + unfold entries in Hk. by rewrite Hm in Hk.
  - intros ->. destruct (GetPrivateKey_returns c) as [r Hr].
    destruct Hr as (order & Horder & ->).
    exists order. split; [done |]. unfold GetPrivateKey_in.
    destruct (tokenKeys c) as [m |] eqn:Hm.
    + destruct (range_private order) as [[k0 kid0] |] eqn:Hrange.
      * apply range_private_Some in Hrange as (Hin & Hne0 & Hpriv0).
        apply (iteration_order_elem c) in Hin; [| done].
        by destruct (Honly _ _ Hin Hne0 Hpriv0) as [-> ->].
      * exfalso. eapply (proj1 (range_private_None order) Hrange kid k); eauto.
        by apply (iteration_order_elem c).
    + unfold entries in Hk. by rewrite Hm in Hk.
Qed.

(** The private key at "k1" is returned, not the one at "0" and not the
    public key at "k2". *)
Lemma GetPrivateKey_single_private_key_witness :
  let c := AddKeys NewCommonTokenConfig
             [("0", VRSAPrivate rsa_priv2); ("k1", VRSAPrivate rsa_priv1);
              ("k2", VRSAPublic rsa_pub2)] in
  entries c !! "0" = Some (VRSAPrivate rsa_priv2)
  ∧ ∀ r, GetPrivateKey c r ↔ r = (VRSAPrivate rsa_priv1, "k1", None).
Proof.
  intros c. split; [reflexivity |].
  assert (Hc : entries c
               = {["0" := VRSAPrivate rsa_priv2; "k1" := VRSAPrivate rsa_priv1;
                   "k2" := VRSAPublic rsa_pub2]}) by (by apply map_eq).
  apply (GetPrivateKey_single_private_key c "k1" (VRSAPrivate rsa_priv1)).
  - reflexivity.
  - done.
  - exact I.
  - intros kid' k' Hk' Hne' Hpriv'. rewrite Hc in Hk'.
    apply lookup_insert_Some in Hk' as [[<- <-] | [_ Hk']]; [done |].
    apply lookup_insert_Some in Hk' as [[<- <-] | [_ Hk']]; [done |].
    apply lookup_singleton_Some in Hk' as [<- <-]. done.
Defined.

Lemma AddPublicKey_all_public c keyID km :
  all_public c → all_public (AddPublicKey c keyID km).1.
Proof.
  intros Hall kid k Hk.
  destruct (AddPublicKey_old_or_public _ _ _ _ _ Hk); eauto.
Qed.

Lemma AddPublicKeys_tokenType ins : ∀ c,
  tokenType (AddPublicKeys c ins) = tokenType c.
Proof.
  induction ins as [| [keyID km] ins IH]; intros c; [done |].
  unfold AddPublicKeys in *. simpl. by rewrite IH, AddPublicKey_tokenType.
Qed.

(** X8: AddPublicKey alone gives no signing key and commits no family: on a
    registry of public keys, a new one included, any sequence of
    AddPublicKey calls, private keys among the inputs or not, leaves a
    registry of public keys and the family tag as it was, and GetPrivateKey
    fails, with ErrRSAKeysNotFound unless the family tag is "ecdsa". *)
Theorem AddPublicKeys_give_no_private_key
    (c : CommonTokenConfig) (ins : list (string * KeyMaterial)) :
  all_public c →
  all_public (AddPublicKeys c ins)
  ∧ tokenType (AddPublicKeys c ins) = tokenType c
  ∧ (∀ r, GetPrivateKey (AddPublicKeys c ins) r →
       (r = (VNil, "", Some ErrRSAKeysNotFound)
        ∨ r = (VNil, "", Some ErrECDSAKeysNotFound))
       ∧ (tokenType c ≠ "ecdsa" → r = (VNil, "", Some ErrRSAKeysNotFound))).
Proof.
  intros Hall.
  assert (Hrun : all_public (AddPublicKeys c ins)).
  { revert c Hall. induction ins as [| [keyID km] ins IH]; intros c Hall; [done |].
    unfold AddPublicKeys in *. simpl. by apply IH, AddPublicKey_all_public. }
  split_and!; [done | apply AddPublicKeys_tokenType |].
  intros r Hr. apply GetPrivateKey_none in Hr.
  - rewrite Hr. unfold family_not_found. rewrite AddPublicKeys_tokenType.
    destruct (tokenKeys (AddPublicKeys c ins)); repeat case_decide; eauto.
    split; [eauto | done].
  - intros kid k Hk _. by apply is_public_not_private, (Hrun kid).
Qed.

(** Two private keys went in, no private key can come out. *)
Lemma AddPublicKeys_give_no_private_key_witness :
  size (entries (AddPublicKeys NewCommonTokenConfig
                   [("k1", VRSAPrivate rsa_priv1); ("k2", VRSAPrivate rsa_priv2)]))
  = 3
  ∧ ∀ r, GetPrivateKey
           (AddPublicKeys NewCommonTokenConfig
              [("k1", VRSAPrivate rsa_priv1); ("k2", VRSAPrivate rsa_priv2)]) r →
         r = (VNil, "", Some ErrRSAKeysNotFound).
Proof.
  split; [reflexivity |]. intros r Hr.
  pose proof (AddPublicKeys_give_no_private_key NewCommonTokenConfig
                [("k1", VRSAPrivate rsa_priv1); ("k2", VRSAPrivate rsa_priv2)])
    as Hno.
  destruct Hno as (_ & _ & Hget).
  - intros kid k Hk. unfold entries in Hk. simpl in Hk.
    by rewrite lookup_empty in Hk.
  - by apply (Hget r Hr).
Defined.

Lemma exec_private_entry c op kid k :
  entries (exec c op).1 !! kid = Some k → is_private_key k →
  entries c !! kid = Some k ∨ op = CallAddKey kid k.
Proof.
  intros Hk Hpriv. destruct op as [name | keyID km | k0 pk]; simpl in Hk.
  - left. by rewrite entries_SetOrigin in Hk.
  - destruct (AddPublicKey_old_or_public _ _ _ _ _ Hk) as [Hold | Hpub];
      [by left |]. by apply is_public_not_private in Hpub.
  - rewrite AddKey_entries in Hk. destruct (AddKey c k0 pk).2; [by left |].
    apply lookup_insert_Some in Hk as [[<- <-] | [_ Hk]]; eauto.
Qed.

Lemma run_private_entry ops : ∀ c kid k,
  entries (run c ops) !! kid = Some k → is_private_key k →
  entries c !! kid = Some k ∨ CallAddKey kid k ∈ ops.
Proof.
  induction ops as [| op ops IH]; intros c kid k Hk Hpriv; [by left |].
  unfold run in *. simpl in Hk.
  destruct (IH _ _ _ Hk Hpriv) as [Hmid | Hin].
  - destruct (exec_private_entry _ _ _ _ Hmid Hpriv) as [Hold | ->].
    + by left.
    + right. by left.
  - right. by right.
Qed.

(** X9: Every private key in the registry was given to AddKey at that kid: on
    a registry without private key, a new one included, after any sequence
    of calls each entry holding a private key, and so each key
    GetPrivateKey returns, is the argument of an AddKey call of the
    sequence at the same kid. *)
Theorem private_keys_come_from_AddKey (c : CommonTokenConfig) (ops : list call) :
  (∀ kid k, entries c !! kid = Some k → ¬ is_private_key k) →
  (∀ kid k, entries (run c ops) !! kid = Some k → is_private_key k →
            CallAddKey kid k ∈ ops)
  ∧ (∀ k kid, GetPrivateKey (run c ops) (k, kid, None) →
              CallAddKey kid k ∈ ops ∧ kid ≠ defaultKeyID).
Proof.
  intros Hnone.
  assert (Hentries : ∀ kid k, entries (run c ops) !! kid = Some k →
                              is_private_key k → CallAddKey kid k ∈ ops).
  { intros kid k Hk Hpriv.
    destruct (run_private_entry _ _ _ _ Hk Hpriv) as [Hold | Hin]; [| done].
    by destruct (Hnone _ _ Hold). }
  split; [done |].
  intros k kid Hget. apply GetPrivateKey_found in Hget as (Hk & Hne & Hpriv).
  eauto.
Qed.

Lemma private_keys_come_from_AddKey_witness :
  entries NewCommonTokenConfig = ∅
  ∧ ∀ k kid,
    GetPrivateKey
      (run NewCommonTokenConfig
         [CallAddPublicKey "k1" (VRSAPrivate rsa_priv1);
          CallAddKey "k2" (VRSAPrivate rsa_priv2)]) (k, kid, None) →
    CallAddKey kid k ∈ [CallAddPublicKey "k1" (VRSAPrivate rsa_priv1);
                        CallAddKey "k2" (VRSAPrivate rsa_priv2)]
    ∧ kid ≠ defaultKeyID.
Proof.
  split; [reflexivity |].
  apply (private_keys_come_from_AddKey NewCommonTokenConfig).
  intros kid k Hk. unfold entries in Hk. simpl in Hk.
  by rewrite lookup_empty in Hk.
Defined.

(** X10: A key stored at the default kid is never the signing key: on a
    registry without private key outside "0", AddKey at "0", of a private
    key too, is followed by the not-found error of the family. *)
Theorem private_key_at_default_kid_not_returned
    (c : CommonTokenConfig) (pk : KeyMaterial) :
  no_private_key c →
  no_private_key (AddKey c defaultKeyID pk).1
  ∧ (∀ r, GetPrivateKey (AddKey c defaultKeyID pk).1 r →
          r = (VNil, "", family_not_found (AddKey c defaultKeyID pk).1)).
Proof.
  intros Hnone.
  assert (Hafter : no_private_key (AddKey c defaultKeyID pk).1).
  { intros kid k Hk Hne. rewrite AddKey_entries in Hk.
    destruct (AddKey c defaultKeyID pk).2; [by apply (Hnone kid) |].
    rewrite lookup_insert_ne in Hk by done. by apply (Hnone kid). }
  split; [done |].
  intros r Hr. apply GetPrivateKey_none in Hr; [| done].
  destruct (AddKey_allocates c defaultKeyID pk) as [m Hm].
  by rewrite Hm in Hr.
Qed.

Lemma private_key_at_default_kid_not_returned_witness :
  entries (AddKey NewCommonTokenConfig "0" (VECDSAPrivate ecdsa_priv1)).1 !! "0"
  = Some (VECDSAPrivate ecdsa_priv1)
  ∧ ∀ r, GetPrivateKey (AddKey NewCommonTokenConfig "0" (VECDSAPrivate ecdsa_priv1)).1 r →
         r = (VNil, "", Some ErrECDSAKeysNotFound).
Proof.
  split; [reflexivity |].
  apply (private_key_at_default_kid_not_returned NewCommonTokenConfig
           (VECDSAPrivate ecdsa_priv1)).
  intros kid k Hk. unfold entries in Hk. simpl in Hk.
  by rewrite lookup_empty in Hk.
Defined.

(** ** The origin over several calls *)

Lemma SetOrigin_accepted c name :
  accepted_origin name → GetOrigin (SetOrigin c name).1 = name.
Proof.
  intros Hacc. unfold SetOrigin, accepted_origin in *.
  case_decide; [| done]. unfold GetOrigin. simpl.
  case_decide as Hempty; [| done]. destruct Hacc; congruence.
Qed.

Lemma SetOrigin_refused c name :
  ¬ accepted_origin name → (SetOrigin c name).1 = c.
Proof.
  intros Hacc. unfold SetOrigin, accepted_origin in *.
  repeat case_decide; done.
Qed.

(** X11: The last accepted call wins: after a sequence of SetOrigin calls,
    GetOrigin is the last name of the sequence that is "config" or "env",
    whatever was set before and whatever refused names come after it; if
    the sequence has no such name, GetOrigin is what it was. *)
Theorem SetOrigins_last_accepted_wins (c : CommonTokenConfig) (names : list string) :
  GetOrigin (SetOrigins c names)
  = default (GetOrigin c) (last (filter accepted_origin names)).
Proof.
  revert c. induction names as [| name names IH]; intros c; [done |].
  unfold SetOrigins in *. simpl. rewrite IH.
  destruct (decide (accepted_origin name)) as [Hacc | Hacc].
  - rewrite filter_cons_True by done. rewrite last_cons.
    rewrite SetOrigin_accepted by done.
    by destruct (last (filter accepted_origin names)).
  - rewrite filter_cons_False by done. by rewrite SetOrigin_refused.
Qed.

Lemma SetOrigins_last_accepted_wins_witness :
  GetOrigin (SetOrigins NewCommonTokenConfig ["env"; "bogus"; "config"; "empty"])
  = "config".
Proof.
  apply (SetOrigins_last_accepted_wins NewCommonTokenConfig
           ["env"; "bogus"; "config"; "empty"]).
Defined.

(** ** The registry, the origin and the configuration fields are apart *)

Lemma exec_fields c op :
  RSA (exec c op).1 = RSA c ∧ ECDSA (exec c op).1 = ECDSA c
  ∧ HMAC (exec c op).1 = HMAC c.
Proof.
  destruct op as [name | keyID km | k pk]; simpl.
  - unfold SetOrigin. repeat case_decide; done.
  - unfold AddPublicKey, store_default_if_absent, make_tokenKeys.
    case_decide; [done |].
    destruct (tokenKeys c); destruct km; simpl; try done;
      match goal with |- context [entries ?x !! defaultKeyID] =>
        destruct (entries x !! defaultKeyID) end; done.
  - rewrite AddKey_cases. unfold make_tokenKeys.
    destruct (getKeyType c pk) as [kt [err |]];
      destruct (tokenKeys c); repeat case_decide; done.
Qed.

(** X12: HasRSAKeys and HasECDSAKeys do not see the registry: no sequence of
    SetOrigin, AddPublicKey and AddKey calls changes their answer, so
    adding an RSA key to the registry does not make HasRSAKeys true. *)
Theorem HasKeys_ignore_registry (c : CommonTokenConfig) (ops : list call) :
  HasRSAKeys (run c ops) = HasRSAKeys c
  ∧ HasECDSAKeys (run c ops) = HasECDSAKeys c.
Proof.
  assert (Hrun : RSA (run c ops) = RSA c ∧ ECDSA (run c ops) = ECDSA c).
  { revert c. induction ops as [| op ops IH]; intros c; [done |].
    unfold run in *. simpl. destruct (IH (exec c op).1) as [-> ->].
    destruct (exec_fields c op) as (-> & -> & _). done. }
  destruct Hrun as [HRSA HECDSA].
  unfold HasRSAKeys, HasECDSAKeys. by rewrite HRSA, HECDSA.
Qed.

Lemma HasKeys_ignore_registry_witness :
  HasRSAKeys (run NewCommonTokenConfig [CallAddKey "k1" (VRSAPrivate rsa_priv1)])
  = false.
Proof.
  apply (HasKeys_ignore_registry NewCommonTokenConfig
           [CallAddKey "k1" (VRSAPrivate rsa_priv1)]).
Defined.

(** X13: SetOrigin does not touch the registry and the inserts do not touch
    the origin: GetKeys and the results of GetPrivateKey are the same
    before and after a SetOrigin call, accepted or not, and GetOrigin is
    the same before and after an AddKey or AddPublicKey call. *)
Theorem origin_and_registry_independent (c : CommonTokenConfig) :
  (∀ name, GetKeys (SetOrigin c name).1 = GetKeys c
           ∧ ∀ r, GetPrivateKey (SetOrigin c name).1 r ↔ GetPrivateKey c r)
  ∧ (∀ op, is_insert op → GetOrigin (exec c op).1 = GetOrigin c).
Proof.
  split.
  - intros name. destruct (SetOrigin_registry c name) as [Hkeys Hty].
    split; [unfold GetKeys; by rewrite Hkeys, Hty |].
    intros r. unfold GetPrivateKey, iteration_order, GetPrivateKey_in, entries.
    by rewrite Hkeys, Hty.
  - intros op Hop. unfold GetOrigin. rewrite exec_tokenOrigin; [done |].
    intros name ->. destruct Hop.
Qed.

Lemma origin_and_registry_independent_witness :
  GetOrigin (exec (SetOrigin NewCommonTokenConfig "env").1
               (CallAddKey "k1" (VString "s3cret"))).1 = "env".
Proof.
  apply (origin_and_registry_independent (SetOrigin NewCommonTokenConfig "env").1).
  exact I.
Defined.

(** ** Inserts and LoadKeys *)




(** ** Repeating and ordering inserts *)

Lemma store_store c k v : store (store c k v) k v = store c k v.
Proof.
  unfold store at 1. rewrite entries_store, insert_insert_eq. reflexivity.
Qed.

Lemma store_present c k v :
  is_Some (tokenKeys c) → entries c !! k = Some v → store c k v = c.
Proof.
  intros [m Hm] Hk. unfold store. rewrite insert_id by done.
  unfold entries. rewrite Hm. simpl. destruct c. simpl in *. by subst.
Qed.

Lemma set_tokenType_store c k v kt :
  set_tokenType (store c k v) kt = store (set_tokenType c kt) k v.
Proof. reflexivity. Qed.

Lemma set_tokenType_idem c kt :
  set_tokenType (set_tokenType c kt) kt = set_tokenType c kt.
Proof. reflexivity. Qed.

Lemma make_tokenKeys_idem c : make_tokenKeys (make_tokenKeys c) = make_tokenKeys c.
Proof. apply make_tokenKeys_allocated, tokenKeys_make_tokenKeys. Qed.

Lemma store_with_default_twice c0 keyID pub :
  is_Some (tokenKeys c0) →
  let c1 := store_default_if_absent (store c0 keyID pub) pub in
  store_default_if_absent (store (make_tokenKeys c1) keyID pub) pub = c1.
Proof.
  intros Halloc c1.
  assert (is_Some (tokenKeys c1)) as Hc1
    by (apply tokenKeys_store_default_if_absent; simpl; eauto).
  assert (entries c1 !! keyID = Some pub) as Hk.
  { unfold c1. rewrite entries_store_default_if_absent, entries_store.
    destruct (<[keyID:=pub]> (entries c0) !! defaultKeyID) eqn:Hd;
      [by rewrite lookup_insert_eq |].
    rewrite lookup_insert_ne; [by rewrite lookup_insert_eq |].
    intros <-. by rewrite lookup_insert_eq in Hd. }
  assert (is_Some (entries c1 !! defaultKeyID)) as [d Hd].
  { unfold c1. rewrite entries_store_default_if_absent.
    destruct (entries (store c0 keyID pub) !! defaultKeyID) eqn:Hd;
      [by rewrite Hd | by rewrite lookup_insert_eq]. }
  rewrite (make_tokenKeys_allocated c1), (store_present c1) by done.
  unfold store_default_if_absent at 1. by rewrite Hd.
Qed.

(** X15: Every call is idempotent: made a second time on the configuration it
    left, SetOrigin, AddPublicKey or AddKey returns the same result and
    leaves the configuration as it is. *)
Theorem call_twice_same (c : CommonTokenConfig) (op : call) :
  exec (exec c op).1 op = exec c op.
Proof.
  destruct op as [name | keyID km | k pk]; simpl.
  - unfold SetOrigin. repeat case_decide; done.
  - destruct (decide (keyID = "")) as [-> | HkeyID]; [done |].
    unfold AddPublicKey. rewrite !decide_False by done.
    pose proof (tokenKeys_make_tokenKeys c) as Halloc.
    destruct km as [s | p | p | p | p | | ty]; simpl;
      rewrite ?make_tokenKeys_idem; try done.
    + by rewrite store_with_default_twice.
    + rewrite (make_tokenKeys_allocated (store _ _ _)) by (simpl; eauto).
      by rewrite store_store.
    + by rewrite store_with_default_twice.
    + rewrite (make_tokenKeys_allocated (store _ _ _)) by (simpl; eauto).
      by rewrite store_store.
  - destruct (KeyMaterial_cases pk) as [[kt Hfam] | [-> | [Hnone Hnil]]].
    + pose proof (family_of_nonempty _ _ Hfam) as Hne.
      rewrite (AddKey_family c _ _ _ Hfam).
      destruct (decide (tokenType c = "")) as [Hty | Hty];
        [| destruct (decide (tokenType c = kt)) as [Hkt | Hkt]]; simpl;
        rewrite (AddKey_family _ _ _ _ Hfam); simpl;
        rewrite ?tokenType_make_tokenKeys, ?make_tokenKeys_idem.
      * rewrite decide_False, decide_True by done.
        rewrite (make_tokenKeys_allocated (store _ _ _)) by (simpl; eauto).
        by rewrite store_store.
      * rewrite decide_False, decide_True by done.
        rewrite (make_tokenKeys_allocated (store _ _ _)) by (simpl; eauto).
        by rewrite store_store.
      * by rewrite !decide_False by done.
    + rewrite (AddKey_nil c). case_decide as Hty; simpl; rewrite AddKey_nil.
      * rewrite (make_tokenKeys_allocated (store _ _ _)) by (simpl; eauto).
        rewrite set_tokenType_store, set_tokenType_idem, store_store.
        reflexivity.
      * rewrite tokenType_make_tokenKeys, decide_False by done.
        by rewrite make_tokenKeys_idem.
    + rewrite (AddKey_unsupported c) by done. simpl.
      by rewrite AddKey_unsupported, make_tokenKeys_idem.
Qed.

(** The second call changes nothing, for an accepted key and for a refused
    one. *)
Lemma call_twice_same_witness :
  let c1 := (exec NewCommonTokenConfig (CallAddPublicKey "k1" (VRSAPrivate rsa_priv1))).1 in
  exec c1 (CallAddPublicKey "k1" (VRSAPrivate rsa_priv1)) = (c1, None).
Proof.
  apply (call_twice_same NewCommonTokenConfig
           (CallAddPublicKey "k1" (VRSAPrivate rsa_priv1))).
Defined.

(** ** AddPublicKey: the kids it writes *)

(** X16: AddPublicKey writes at most two kids: every entry at a kid other than
    the given one and the default one is left as it was, and when the
    registry has a default entry already, every entry at a kid other than
    the given one. *)
Theorem AddPublicKey_writes_kid_and_default
    (c : CommonTokenConfig) (keyID : string) (km : KeyMaterial) (k : string) :
  k ≠ keyID →
  (k ≠ defaultKeyID ∨ is_Some (entries c !! defaultKeyID)) →
  entries (AddPublicKey c keyID km).1 !! k = entries c !! k.
Proof.
  intros Hne Hk.
  destruct (decide (keyID = "")) as [-> | HkeyID]; [done |].
  rewrite AddPublicKey_entries by done.
  destruct (derived_public km) as [pub |]; simpl.
  - destruct (decide (keyID = defaultKeyID)) as [-> | Hne0].
    + rewrite lookup_insert_eq. by rewrite lookup_insert_ne.
    + rewrite (lookup_insert_ne _ keyID defaultKeyID) by done.
      destruct (entries c !! defaultKeyID) as [d |] eqn:Hd.
      * by rewrite lookup_insert_ne.
      * destruct Hk as [Hk | [d Hk]]; [| done].
        by rewrite !lookup_insert_ne.
  - destruct km; try done; by rewrite lookup_insert_ne.
Qed.

Lemma AddPublicKey_writes_kid_and_default_witness :
  let c := (AddPublicKey NewCommonTokenConfig "k1" (VRSAPrivate rsa_priv1)).1 in
  entries (AddPublicKey c "k2" (VRSAPrivate rsa_priv2)).1 !! "0" = entries c !! "0"
  ∧ entries (AddPublicKey c "k2" (VRSAPrivate rsa_priv2)).1 !! "k1" = entries c !! "k1".
Proof.
  intros c. split.
  - apply (AddPublicKey_writes_kid_and_default c "k2" (VRSAPrivate rsa_priv2) "0").
    + done.
    + right. by eexists.
  - apply (AddPublicKey_writes_kid_and_default c "k2" (VRSAPrivate rsa_priv2) "k1").
    + done.
    + by left.
Defined.

(** X17: An insert at the default kid itself replaces the default entry: the
    first-writer rule holds against inserts at other kids only.  For a
    private or public key, AddPublicKey at "0" succeeds, leaves the public
    key at "0" whatever was there, and changes no other entry. *)
Theorem AddPublicKey_at_default_kid_overwrites
    (c : CommonTokenConfig) (km : KeyMaterial) :
  is_private_key km ∨ is_public_key km →
  (AddPublicKey c defaultKeyID km).2 = None
  ∧ entries (AddPublicKey c defaultKeyID km).1
    = <[defaultKeyID := default km (derived_public km)]> (entries c).
Proof.
  intros Hkm. rewrite AddPublicKey_result, AddPublicKey_entries by done.
  destruct km; simpl in *; try (by destruct Hkm); split; try done;
    by rewrite lookup_insert_eq.
Qed.

(** The default left by the first private key is replaced by the public
    key inserted at "0". *)
Lemma AddPublicKey_at_default_kid_overwrites_witness :
  let c := (AddPublicKey NewCommonTokenConfig "k1" (VRSAPrivate rsa_priv1)).1 in
  entries c !! "0" = Some (VRSAPublic rsa_pub1)
  ∧ entries (AddPublicKey c "0" (VRSAPublic rsa_pub2)).1
    = <["0" := VRSAPublic rsa_pub2]> (entries c).
Proof.
  intros c. split; [reflexivity |].
  apply (AddPublicKey_at_default_kid_overwrites c (VRSAPublic rsa_pub2)).
  by right.
Defined.

(** X18: Given a private key, AddPublicKey does what it does on the public key
    derived from it, and then fills the default entry if there is none:
    with a default entry in place, or at the default kid, the two calls
    are the same call, and otherwise they differ by the default entry
    alone. *)
Theorem AddPublicKey_private_as_derived_public
    (c : CommonTokenConfig) (keyID : string) (km pub : KeyMaterial) :
  derived_public km = Some pub →
  (AddPublicKey c keyID km).2 = (AddPublicKey c keyID pub).2
  ∧ (is_Some (entries c !! defaultKeyID) ∨ keyID = defaultKeyID →
     AddPublicKey c keyID km = AddPublicKey c keyID pub)
  ∧ (entries c !! defaultKeyID = None → keyID ≠ defaultKeyID → keyID ≠ "" →
     entries (AddPublicKey c keyID km).1
     = <[defaultKeyID := pub]> (entries (AddPublicKey c keyID pub).1)).
Proof.
  intros Hpub.
  assert (Hstep : (AddPublicKey c keyID km).1
            = (if decide (keyID = "") then c
               else store_default_if_absent (AddPublicKey c keyID pub).1 pub)
            ∧ (AddPublicKey c keyID km).2 = (AddPublicKey c keyID pub).2).
  { unfold AddPublicKey. case_decide; [done |].
    destruct km; simpl in Hpub; simplify_eq; done. }
  destruct Hstep as [Hstate Hres]. split_and!; [done | |].
  - intros Hdef. apply injective_projections; [| done].
    rewrite Hstate. case_decide as HkeyID; [by subst |].
    unfold store_default_if_absent.
    assert (is_Some (entries (AddPublicKey c keyID pub).1 !! defaultKeyID))
      as [d ->]; [| done].
    rewrite AddPublicKey_entries by done.
    destruct km; simpl in Hpub; simplify_eq; simpl;
      (destruct Hdef as [[d Hd] | ->];
       [rewrite lookup_insert; case_decide; eauto | rewrite lookup_insert_eq; eauto]).
  - intros Hd Hne HkeyID. rewrite Hstate, decide_False by done.
    rewrite entries_store_default_if_absent.
    assert (entries (AddPublicKey c keyID pub).1 !! defaultKeyID = None) as ->;
      [| done].
    rewrite AddPublicKey_entries by done.
    destruct km; simpl in Hpub; simplify_eq; simpl;
      by rewrite lookup_insert_ne.
Qed.

Lemma AddPublicKey_private_as_derived_public_witness :
  let c := (AddPublicKey NewCommonTokenConfig "0" (VRSAPublic rsa_pub2)).1 in
  AddPublicKey c "k1" (VRSAPrivate rsa_priv1)
  = AddPublicKey c "k1" (VRSAPublic rsa_pub1).
Proof.
  intros c.
  apply (AddPublicKey_private_as_derived_public c "k1" (VRSAPrivate rsa_priv1)
           (VRSAPublic rsa_pub1)).
  - reflexivity.
  - left. by eexists.
Defined.

(** ** AddKey and AddPublicKey at one kid *)



(** ** The family tag over any sequence of calls *)

Lemma exec_tokenType c op :
  tokenType (exec c op).1 = tokenType c
  ∨ (tokenType c = "" ∧ ∃ k pk, op = CallAddKey k pk
                                ∧ family_of pk (tokenType (exec c op).1)).
Proof.
  destruct op as [name | keyID km | k pk]; simpl.
  - left. apply SetOrigin_registry.
  - left. apply AddPublicKey_tokenType.
  - rewrite AddKey_tokenType. destruct (AddKey c k pk).2 eqn:Hr; [by left |].
    case_decide as Hty; [| by left].
    rewrite AddKey_cases in Hr.
    destruct (getKeyType c pk) as [kt [err |]] eqn:Hkt; [done |].
    apply getKeyType_ok in Hkt as [Hfam | [-> ->]]; [| by left].
    right. split; [done |]. by exists k, pk.
Qed.

Lemma run_app c ops1 ops2 : run c (ops1 ++ ops2) = run (run c ops1) ops2.
Proof. apply foldl_app. Qed.

(** X20: The family tag GetKeys returns is written once: over any sequence of
    calls on a configuration without committed family, the tag is empty
    or one of "secret", "rsa" and "ecdsa", namely the family of a key
    given to AddKey, and once it is not empty no later call, of whatever
    kind and outcome, changes it. *)
Theorem family_tag_written_once (c : CommonTokenConfig) (ops1 ops2 : list call) :
  tokenType c = "" →
  (tokenType (run c ops1) = ""
   ∨ ∃ k pk, CallAddKey k pk ∈ ops1 ∧ family_of pk (tokenType (run c ops1)))
  ∧ tokenType (run c ops1) ∈ ["" ; "secret"; "rsa"; "ecdsa"]
  ∧ (tokenType (run c ops1) ≠ "" →
     (GetKeys (run c (ops1 ++ ops2))).1 = (GetKeys (run c ops1)).1).
Proof.
  intros Hty.
  assert (Hkeep : ∀ ops c0, tokenType c0 ≠ "" →
                            tokenType (run c0 ops) = tokenType c0).
  { clear. induction ops as [| op ops IH]; intros c0 Hne; [done |].
    unfold run in *. simpl.
    destruct (exec_tokenType c0 op) as [Hsame | [Hempty _]]; [| done].
    rewrite IH; congruence. }
  assert (Hfrom : ∀ ops c0, tokenType c0 = "" →
            tokenType (run c0 ops) = ""
            ∨ ∃ k pk, CallAddKey k pk ∈ ops ∧ family_of pk (tokenType (run c0 ops))).
  { clear -Hkeep. induction ops as [| op ops IH]; intros c0 Hempty; [by left |].
    unfold run in *. simpl.
    destruct (exec_tokenType c0 op) as [Hsame | (_ & k & pk & -> & Hfam)].
    - destruct (IH (exec c0 op).1) as [Hnone | (k & pk & Hin & Hfam)];
        [congruence | by left |].
      right. exists k, pk. split; [by right | done].
    - right. exists k, pk. split; [by left |].
      fold (run (exec c0 (CallAddKey k pk)).1 ops).
      rewrite Hkeep; [done |]. by eapply family_of_nonempty. }
  split_and!.
  - by apply Hfrom.
  - destruct (Hfrom ops1 c Hty) as [-> | (k & pk & _ & Hfam)]; [by left |].
    destruct Hfam; set_solver.
  - intros Hne. unfold GetKeys. simpl. rewrite run_app. by apply Hkeep.
Qed.

Lemma family_tag_written_once_witness :
  (GetKeys (run NewCommonTokenConfig
              ([CallAddPublicKey "k1" (VRSAPublic rsa_pub1);
                CallAddKey "k2" (VECDSAPublic ecdsa_pub1)]
               ++ [CallAddKey "k3" (VRSAPublic rsa_pub1);
                   CallAddKey "0" (VString "s3cret")]))).1
  = "ecdsa".
Proof.
  apply (family_tag_written_once NewCommonTokenConfig
           [CallAddPublicKey "k1" (VRSAPublic rsa_pub1);
            CallAddKey "k2" (VECDSAPublic ecdsa_pub1)]
           [CallAddKey "k3" (VRSAPublic rsa_pub1);
            CallAddKey "0" (VString "s3cret")]).
  - reflexivity.
  - done.
Defined.
